(** * Quick-Show backend: user sync, booking expiry, reminders, favourites

    A shallow embedding of [server/inngest/index.js] and
    [server/controllers/User.controller.js].  Handlers are written in a
    small state-and-exception monad over the external stores they talk to
    (the document database, the mail relay, the identity provider), and
    every call made against a store is recorded, so that statements such
    as "no write happens" or "every send is attempted" can be made. *)

From stdpp Require Import gmap strings list fin_maps pretty.

(** ** JavaScript outcomes *)

(** An evaluation either returns or throws.  The errors are the ones the
    handlers can raise themselves (reading a property of [null] or
    [undefined]) and the ones the external clients raise. *)
Inductive JsError :=
  | TypeError (what : string)
  | DuplicateKey (id : string)
  | ClerkError (what : string).

Inductive Outcome (A : Type) :=
  | Returned (a : A)
  | Thrown (e : JsError).
Arguments Returned {A} a.
Arguments Thrown {A} e.

Definition returns {A} (o : Outcome A) : bool :=
  match o with Returned _ => true | Thrown _ => false end.

(** [Eff S A]: an [async] body running against a store of type [S].  A
    throw keeps the store as it is at that point: what was written before
    stays written. *)
Definition Eff (S A : Type) : Type := S → Outcome A * S.

Global Instance eff_ret {S} : MRet (Eff S) :=
  λ A a s, (Returned a, s).

Global Instance eff_bind {S} : MBind (Eff S) :=
  λ A B k m s,
    match m s with
    | (Returned a, s') => k a s'
    | (Thrown e, s') => (Thrown e, s')
    end.

Definition throw {S A} (e : JsError) : Eff S A := λ s, (Thrown e, s).

(** [try { m } catch (error) { h error }] *)
Definition try_catch {S A} (m : Eff S A) (h : JsError → Eff S A) : Eff S A :=
  λ s, match m s with
       | (Returned a, s') => (Returned a, s')
       | (Thrown e, s') => h e s'
       end.

(** [error.message] *)
Definition message_of (e : JsError) : string :=
  match e with
  | TypeError what => what
  | DuplicateKey id => "E11000 duplicate key error: " +:+ id
  | ClerkError what => what
  end.

(** String coercion of a possibly-[null] string operand of [+]. *)
Definition js_str (v : option string) : string :=
  match v with Some s => s | None => "null" end.

(** The double-quote character, for the templates that contain it. *)
Definition dq : string :=
  String (Ascii.Ascii false true false false false true false false) EmptyString.

(** ** Documents

    The model files ([models/*.model.js]) are not part of the sources at
    hand; the documents carry the fields the handlers read and write.  A
    collection is a finite map from [_id] to the rest of the document, the
    database keeping [_id] unique. *)

(** Modelled from the spec: the User model, "identity, email, display
    name, avatar reference". *)
Record UserDoc := { email : string; name : string; image : string }.

(** Modelled from the spec: the Movie model, "reference data for
    display"; the handlers read its [title]. *)
Record MovieDoc := { title : string }.

(** Modelled from the spec: the Show model, "reference to a movie, start
    time, and a mapping from seat label to the owning user's identity".
    The start time is the field the reminder sweep queries, in
    milliseconds. *)
Record ShowDoc := {
  movie : string;
  showTime : Z;
  occupiedSeats : gmap string string
}.

(** Modelled from the spec: the Booking model, "reference to a show and a
    user, the set of seat labels reserved, payment-settled flag, amount
    charged". *)
Record BookingDoc := {
  show : string;
  user : string;
  bookedSeats : list string;
  isPaid : bool;
  amount : Z
}.

Global Instance UserDoc_eq_dec : EqDecision UserDoc.
Proof. solve_decision. Defined.
Global Instance MovieDoc_eq_dec : EqDecision MovieDoc.
Proof. solve_decision. Defined.
Global Instance ShowDoc_eq_dec : EqDecision ShowDoc.
Proof. solve_decision. Defined.
Global Instance BookingDoc_eq_dec : EqDecision BookingDoc.
Proof. solve_decision. Defined.

(** ** The mail relay *)

Record Email := { to : string; subject : string; body : string }.

(** What [Promise.allSettled] reports for one promise. *)
Inductive Settled := Fulfilled | Rejected.

Global Instance Settled_eq_dec : EqDecision Settled.
Proof. solve_decision. Defined.

(** ** The world the event handlers run in *)

Inductive Collection := Users | Shows | Bookings | Movies.

(** One entry per call made on a model. *)
Inductive DbCall :=
  | FindById (c : Collection) (id : string)
  | Find (c : Collection)
  | Create (c : Collection) (id : string)
  | Save (c : Collection) (id : string)
  | FindByIdAndUpdate (c : Collection) (id : string)
  | FindByIdAndDelete (c : Collection) (id : string).

Definition is_write (c : DbCall) : bool :=
  match c with
  | FindById _ _ | Find _ => false
  | Create _ _ | Save _ _ | FindByIdAndUpdate _ _ | FindByIdAndDelete _ _ => true
  end.

Record World := {
  users : gmap string UserDoc;
  shows : gmap string ShowDoc;
  bookings : gmap string BookingDoc;
  movies : gmap string MovieDoc;
  dbLog : list DbCall;                (* calls made on the models, oldest first *)
  mailLog : list (Email * Settled)    (* sends attempted, oldest first *)
}.

Definition set_users (f : gmap string UserDoc → gmap string UserDoc) (w : World) : World :=
  {| users := f (users w); shows := shows w; bookings := bookings w;
     movies := movies w; dbLog := dbLog w; mailLog := mailLog w |}.

Definition set_shows (f : gmap string ShowDoc → gmap string ShowDoc) (w : World) : World :=
  {| users := users w; shows := f (shows w); bookings := bookings w;
     movies := movies w; dbLog := dbLog w; mailLog := mailLog w |}.

Definition set_bookings (f : gmap string BookingDoc → gmap string BookingDoc) (w : World) : World :=
  {| users := users w; shows := shows w; bookings := f (bookings w);
     movies := movies w; dbLog := dbLog w; mailLog := mailLog w |}.

Definition log_call (c : DbCall) (w : World) : World :=
  {| users := users w; shows := shows w; bookings := bookings w;
     movies := movies w; dbLog := dbLog w ++ [c]; mailLog := mailLog w |}.

Definition log_mail (e : Email) (r : Settled) (w : World) : World :=
  {| users := users w; shows := shows w; bookings := bookings w;
     movies := movies w; dbLog := dbLog w; mailLog := mailLog w ++ [(e, r)] |}.

(** The documents of a world, without the logs. *)
Definition same_data (w1 w2 : World) : Prop :=
  users w1 = users w2 ∧ shows w1 = shows w2 ∧
  bookings w1 = bookings w2 ∧ movies w1 = movies w2.

(** The calls a run added to the log. *)
Definition calls_added (w w' : World) : list DbCall :=
  drop (length (dbLog w)) (dbLog w').

(** ** Model operations (mongoose) *)

Module User.
  (** [User.create(doc)]: rejected when the [_id] is taken. *)
Definition create (id : string) (doc : UserDoc) : Eff World unit :=
    λ w, let w1 := log_call (Create Users id) w in
         match users w !! id with
         | Some _ => (Thrown (DuplicateKey id), w1)
         | None => (Returned (), set_users (insert id doc) w1)
         end.

  (** [User.findByIdAndDelete(id)]: resolves to the removed document, or
      to [null]. *)
Definition findByIdAndDelete (id : string) : Eff World (option UserDoc) :=
    λ w, (Returned (users w !! id),
          set_users (delete id) (log_call (FindByIdAndDelete Users id) w)).

  (** [User.findByIdAndUpdate(id, doc)], without the [upsert] option: the
      fields of [doc] are set on the document with that [_id] if there is
      one; resolves to the document as it was, or to [null]. *)
Definition findByIdAndUpdate (id : string) (doc : UserDoc) : Eff World (option UserDoc) :=
    λ w, let w1 := log_call (FindByIdAndUpdate Users id) w in
         match users w !! id with
         | Some old => (Returned (Some old), set_users (insert id doc) w1)
         | None => (Returned None, w1)
         end.

  (** [User.find({_id: {$in: ids}}).select("name email")] *)
Definition find_in (ids : list string) : Eff World (list (string * UserDoc)) :=
    λ w, (Returned (map_to_list (filter (λ kv, kv.1 ∈ ids) (users w))),
          log_call (Find Users) w).
End User.

Module Booking.
Definition findById (id : string) : Eff World (option BookingDoc) :=
    λ w, (Returned (bookings w !! id), log_call (FindById Bookings id) w).

Definition findByIdAndDelete (id : string) : Eff World (option BookingDoc) :=
    λ w, (Returned (bookings w !! id),
          set_bookings (delete id) (log_call (FindByIdAndDelete Bookings id) w)).
End Booking.

Module Show.
Definition findById (id : string) : Eff World (option ShowDoc) :=
    λ w, (Returned (shows w !! id), log_call (FindById Shows id) w).

  (** [show.save()] of a document loaded under [id]. *)
Definition save (id : string) (doc : ShowDoc) : Eff World unit :=
    λ w, (Returned (), set_shows (insert id doc) (log_call (Save Shows id) w)).
End Show.

(** ** User sync handlers *)

Record EmailAddress := { email_address : string }.

(** [event.data] of the identity-lifecycle events. *)
Record ClerkUserData := {
  id : string;
  first_name : option string;
  last_name : option string;
  email_addresses : list EmailAddress;
  image_url : string
}.

(** The [userData] object literal; [email_addresses[0].email_address]
    throws when the array is empty. *)
Definition userData (d : ClerkUserData) : Eff World UserDoc :=
  match email_addresses d with
  | a :: _ =>
      mret {| email := email_address a;
              name := js_str (first_name d) +:+ " " +:+ js_str (last_name d);
              image := image_url d |}
  | [] => throw (TypeError "Cannot read properties of undefined (reading 'email_address')")
  end.

Definition syncUserCreation (d : ClerkUserData) : Eff World unit :=
  doc ← userData d;
  User.create (id d) doc.

Definition syncUserDeletion (d : ClerkUserData) : Eff World unit :=
  _ ← User.findByIdAndDelete (id d);
  mret ().

Definition syncUserUpdation (d : ClerkUserData) : Eff World unit :=
  doc ← userData d;
  _ ← User.findByIdAndUpdate (id d) doc;
  mret ().

(** ** Booking-expiry workflow *)

(** [booking.bookedSeats.forEach((seat) => { delete show.occupiedSeats[seat] })] *)
Fixpoint release_seats (seats : list string) (occ : gmap string string) : gmap string string :=
  match seats with
  | [] => occ
  | seat :: rest => release_seats rest (delete seat occ)
  end.

Definition with_occupiedSeats (s : ShowDoc) (occ : gmap string string) : ShowDoc :=
  {| movie := movie s; showTime := showTime s; occupiedSeats := occ |}.

(** What lines 70-73 throw when [show] is [null].  With at least one
    booked seat the first callback of [forEach] reads
    [show.occupiedSeats]; with none the loop body never runs and the
    first dereference is [show.markModified]. *)
Definition null_show_error (seats : list string) : JsError :=
  match seats with
  | _ :: _ => TypeError "Cannot read properties of null (reading 'occupiedSeats')"
  | [] => TypeError "Cannot read properties of null (reading 'markModified')"
  end.

(** The body of [step.run("check-payment-status", ...)], for
    [event.data.bookingId = bookingId]. *)
Definition check_payment_status (bookingId : string) : Eff World unit :=
  booking ← Booking.findById bookingId;
  match booking with
  | None => throw (TypeError "Cannot read properties of null (reading 'isPaid')")
  | Some booking =>
      if negb (isPaid booking) then
        sh ← Show.findById (show booking);
        match sh with
        | None => throw (null_show_error (bookedSeats booking))
        | Some sh =>
            let sh' := with_occupiedSeats sh (release_seats (bookedSeats booking) (occupiedSeats sh)) in
            _ ← Show.save (show booking) sh';
            _ ← Booking.findByIdAndDelete bookingId;
            mret ()
        end
      else mret ()
  end.

(** The same body interrupted between [show.save()] and
    [Booking.findByIdAndDelete]: the show is persisted, the booking is
    still there. *)
Definition check_payment_status_interrupted (bookingId : string) : Eff World unit :=
  booking ← Booking.findById bookingId;
  match booking with
  | None => throw (TypeError "Cannot read properties of null (reading 'isPaid')")
  | Some booking =>
      if negb (isPaid booking) then
        sh ← Show.findById (show booking);
        match sh with
        | None => throw (null_show_error (bookedSeats booking))
        | Some sh =>
            let sh' := with_occupiedSeats sh (release_seats (bookedSeats booking) (occupiedSeats sh)) in
            Show.save (show booking) sh'
        end
      else mret ()
  end.

(** ** Reminder sweep *)

Module Task.
  (** One reminder, as pushed onto [tasks]. *)
Record t := {
    userEmail : string;
    userName : string;
    movieTitle : string;
    showTime : Z
  }.
End Task.

Module Summary.
  (** What the sweep returns; the early return has no [failed] key. *)
Record t := {
    sent : nat;
    failed : option nat;
    message : string
  }.
End Summary.

(** A show with its [movie] path populated: the movie document, or [null]
    when the reference resolves to nothing. *)
Definition PopulatedShow : Type := ShowDoc * option MovieDoc.

Definition in_window (windowStart in8Hours : Z) (s : ShowDoc) : bool :=
  bool_decide (windowStart ≤ showTime s)%Z && bool_decide (showTime s ≤ in8Hours)%Z.

(** The shows a query for [showTime] between the two bounds matches, each
    with its [movie] path populated. *)
Definition shows_in_window (windowStart in8Hours : Z) (w : World) : list PopulatedShow :=
  (λ kv : string * ShowDoc, (kv.2, movies w !! movie kv.2))
    <$> map_to_list (filter (λ kv, in_window windowStart in8Hours kv.2 = true) (shows w)).

(** [Show.find({showTime: {$gte: windowStart, $lte: in8Hours}}).populate('movie')] *)
Definition find_shows_in_window (windowStart in8Hours : Z) : Eff World (list PopulatedShow) :=
  λ w, (Returned (shows_in_window windowStart in8Hours w), log_call (Find Shows) w).

(** [[...new Set(Object.values(show.occupiedSeats))]] *)
Definition seat_holders (s : ShowDoc) : list string :=
  remove_dups (snd <$> map_to_list (occupiedSeats s)).

Definition reminder_task (s : ShowDoc) (m : MovieDoc) (u : string * UserDoc) : Task.t :=
  {| Task.userEmail := email u.2;
     Task.userName := name u.2;
     Task.movieTitle := title m;
     Task.showTime := showTime s |}.

(** The [for (const show of shows)] loop, [tasks] being the array built
    so far.  [occupiedSeats] is an object on every show, so the
    [!show.occupiedSeats] half of the guard never fires. *)
Fixpoint collect_tasks (found : list PopulatedShow) (tasks : list Task.t)
  : Eff World (list Task.t) :=
  match found with
  | [] => mret tasks
  | (s, None) :: rest => collect_tasks rest tasks
  | (s, Some m) :: rest =>
      let userIds := seat_holders s in
      if (length userIds =? 0)%nat then collect_tasks rest tasks
      else
        found_users ← User.find_in userIds;
        collect_tasks rest (tasks ++ (reminder_task s m <$> found_users))
  end.

(** The body of [step.run("prepare-reminder-tasks", ...)]. *)
Definition prepare_reminder_tasks (windowStart in8Hours : Z) : Eff World (list Task.t) :=
  found ← find_shows_in_window windowStart in8Hours;
  collect_tasks found [].

Section Mailer.

  (** The mail relay: whether the [k]-th send it is handed (counting from
      0) goes through. *)
Variable relay_accepts : nat → Email → bool.

  (** [new Date(ms).toLocaleString()] and [new Date(ms).getFullYear()],
      which depend on the locale and time zone of the process. *)
Variable toLocaleString : Z → string.
Variable getFullYear : Z → string.

  (** Modelled from the spec: [sendEmail] of [configs/nodeMailer.js], which
      "formats and sends a single templated message via an external mail
      relay".  The promise it returns is given here as settled: it is
      only ever handed to [Promise.allSettled]. *)
Definition sendEmail (e : Email) : Eff World Settled :=
    λ w, let r := if relay_accepts (length (mailLog w)) e then Fulfilled else Rejected in
         (Returned r, log_mail e r w).

  (** The object literal passed to [sendEmail] for one task; [now] is the
      clock when the template is evaluated. *)
Definition reminder_email (now : Z) (task : Task.t) : Email :=
    {| to := Task.userEmail task;
       subject := "Reminder: Your movie " +:+ dq +:+ Task.movieTitle task +:+ dq +:+ " starts soon!";
       body := "
                   <div style=" +:+ dq +:+ "font-family: Arial, sans-serif; max-width: 600px; margin: auto; padding: 20px;" +:+ dq +:+ ">
      <h2 style=" +:+ dq +:+ "color: #e50914;" +:+ dq +:+ ">🍿 Movie Reminder</h2>
      
      <p>Hi <strong>" +:+ Task.userName task +:+ "</strong>,</p>
      <p>This is a friendly reminder that your movie is scheduled soon. Here are the details:</p>

      <h3>" +:+ Task.movieTitle task +:+ "</h3>
      <p><strong>Show Time:</strong> " +:+ toLocaleString (Task.showTime task) +:+ "</p>

      <div style=" +:+ dq +:+ "margin-top: 20px;" +:+ dq +:+ ">
        <a href=" +:+ dq +:+ "https://yourdomain.com/my-bookings" +:+ dq +:+ " style=" +:+ dq +:+ "display:inline-block;padding:12px 20px;background-color:#e50914;color:white;text-decoration:none;border-radius:6px;" +:+ dq +:+ ">
          View Booking Details
        </a>
      </div>
      <p>It starts in approximately <strong>8 hours</strong></p>
      <p style=" +:+ dq +:+ "margin-top: 30px;" +:+ dq +:+ ">Make sure to arrive on time and enjoy your show!</p>

      <p style=" +:+ dq +:+ "font-size:12px;color:#999;margin-top:40px;" +:+ dq +:+ ">© " +:+ getFullYear now +:+ " QuickShow.</p>
    </div>
                  " |}.

  (** [Promise.allSettled(emails.map(sendEmail))]: every send is started,
      in order, and the outcomes come back in that order. *)
Fixpoint allSettled (emails : list Email) : Eff World (list Settled) :=
    match emails with
    | [] => mret []
    | e :: rest =>
        r ← sendEmail e;
        rs ← allSettled rest;
        mret (r :: rs)
    end.

  (** The body of [step.run('send-all-reminders', ...)]. *)
Definition send_all_reminders (now : Z) (reminderTasks : list Task.t)
    : Eff World (list Settled) :=
    allSettled (reminder_email now <$> reminderTasks).

  (** [sendShowReminders] from the [reminderTasks.length === 0] test on. *)
Definition remind (now : Z) (reminderTasks : list Task.t) : Eff World Summary.t :=
    if (length reminderTasks =? 0)%nat then
      mret {| Summary.sent := 0; Summary.failed := None;
              Summary.message := "No reminders to send" |}
    else
      results ← send_all_reminders now reminderTasks;
      let sent := length (filter (λ r, r = Fulfilled) results) in
      let failed := length results - sent in
      mret {| Summary.sent := sent; Summary.failed := Some failed;
              Summary.message :=
                "Sent " +:+ pretty sent +:+ " reminders, " +:+ pretty failed +:+ " failed." |}.

  (** The cron handler; [now] is [new Date()] at its start. *)
Definition sendShowReminders (now : Z) : Eff World Summary.t :=
    let in8Hours := (now + 8 * 60 * 60 * 1000)%Z in
    let windowStart := (in8Hours - 10 * 60 * 1000)%Z in
    reminderTasks ← prepare_reminder_tasks windowStart in8Hours;
    remind now reminderTasks.

  (** The sends a run added to the log. *)
Definition mail_added (w w' : World) : list (Email * Settled) :=
    drop (length (mailLog w)) (mailLog w').

(** The outcomes of handing [emails] to the relay one after the other,
    [base] sends having been made before. *)
Fixpoint relay_outcomes (base : nat) (emails : list Email) : list Settled :=
  match emails with
  | [] => []
  | e :: rest =>
      (if relay_accepts base e then Fulfilled else Rejected)
        :: relay_outcomes (S base) rest
  end.

(** Of the sends of [emails], the [j]-th is the only one the relay
    refuses. *)
Definition only_fails_at (base j : nat) (emails : list Email) : Prop :=
  j < length emails ∧
  ∀ k e, emails !! k = Some e → relay_accepts (base + k) e = bool_decide (k ≠ j).

End Mailer.

(** *** The prepare step, as the spec words it

    "For each [show], collect the distinct set of user identities holding
    occupied seats, resolve each to {name, email}, and build one reminder
    task per (user, show) pair": the holders are looked up one by one, and
    those without a user record give nothing. *)
Definition resolved_holders (w : World) (s : ShowDoc) : list (string * UserDoc) :=
  omap (λ uid, (λ u, (uid, u)) <$> users w !! uid) (seat_holders s).

Definition tasks_of_show (w : World) (ps : PopulatedShow) : list Task.t :=
  match ps with
  | (s, Some m) => reminder_task s m <$> resolved_holders w s
  | (s, None) => []
  end.

Definition expected_tasks (w : World) (found : list PopulatedShow) : list Task.t :=
  flat_map (tasks_of_show w) found.

(** ** Favourites controller *)

(** [user.privateMetadata] at the identity provider: the [favorites] key
    (absent until the first toggle) and the keys this code never reads. *)
Record PrivateMetadata := {
  favorites : option (list string);
  otherKeys : gmap string string
}.

(** The identity provider's users, by id. *)
Abbreviation Clerk := (gmap string PrivateMetadata).

Module Response.
  (** The JSON envelope of [res.json]. *)
Record t := { success : bool; message : string }.
End Response.

(** [req.auth().userId] ([null] for an unauthenticated caller) and
    [req.body.movieId]; movie ids are strings. *)
Record Request := {
  auth_userId : option string;
  body_movieId : string
}.

Module clerkClient.
  (** [clerkClient.users.getUser(userId)] *)
Definition getUser (userId : option string) : Eff Clerk PrivateMetadata :=
    λ c, match userId with
         | None => (Thrown (ClerkError "A valid resource ID is required."), c)
         | Some uid =>
             match c !! uid with
             | Some md => (Returned md, c)
             | None => (Thrown (ClerkError "Not Found"), c)
             end
         end.

  (** [clerkClient.users.updateUserMetadata(userId, {privateMetadata: md})];
      [md] holds every key that was loaded, so the merge leaves [md]. *)
Definition updateUserMetadata (userId : option string) (md : PrivateMetadata)
    : Eff Clerk unit :=
    λ c, match userId with
         | None => (Thrown (ClerkError "A valid resource ID is required."), c)
         | Some uid =>
             match c !! uid with
             | Some _ => (Returned (), <[uid := md]> c)
             | None => (Thrown (ClerkError "Not Found"), c)
             end
         end.
End clerkClient.

(** The two [if]s of [updateFavourite], on the value of
    [user.privateMetadata.favorites]. *)
Definition toggle_favorite (movieId : string) (stored : option (list string)) : list string :=
  let favorites := match stored with Some l => l | None => [] end in
  if negb (bool_decide (movieId ∈ favorites)) then favorites ++ [movieId]
  else filter (λ item, item ≠ movieId) favorites.

Definition updateFavourite (req : Request) : Eff Clerk Response.t :=
  try_catch
    (let movieId := body_movieId req in
     let userId := auth_userId req in
     u ← clerkClient.getUser userId;
     let u' := {| favorites := Some (toggle_favorite movieId (favorites u));
                  otherKeys := otherKeys u |} in
     _ ← clerkClient.updateUserMetadata userId u';
     mret {| Response.success := true;
             Response.message := "Favourite movies updated successfully" |})
    (λ error, mret {| Response.success := false;
                      Response.message := message_of error |}).

(** The favourites stored for a user, [[]] when there are none. *)
Definition stored_favorites (c : Clerk) (uid : string) : list string :=
  match c !! uid with
  | Some md => match favorites md with Some l => l | None => [] end
  | None => []
  end.

(** How many times [x] occurs in [l]. *)
Definition occurrences (x : string) (l : list string) : nat :=
  length (filter (λ y, y = x) l).

(** ** Notification handlers *)

(** [User.find({})] *)
Definition find_all_users : Eff World (list (string * UserDoc)) :=
  λ w, (Returned (map_to_list (users w)), log_call (Find Users) w).

(** What [Booking.findById(id).populate({path: "show", populate: {path:
    "movie"}}).populate("user")] resolves to when the booking is there: a
    path whose reference resolves to nothing is [null]. *)
Record PopulatedBooking := {
  pb_booking : BookingDoc;
  pb_show : option PopulatedShow;
  pb_user : option UserDoc
}.

Definition populate_booking (w : World) (b : BookingDoc) : PopulatedBooking :=
  {| pb_booking := b;
     pb_show := (λ s, (s, movies w !! movie s)) <$> shows w !! show b;
     pb_user := users w !! user b |}.

Definition find_booking_populated (bookingId : string) : Eff World (option PopulatedBooking) :=
  λ w, (Returned (populate_booking w <$> bookings w !! bookingId),
        log_call (FindById Bookings bookingId) w).

Module Notification.
(** What the new-show broadcast returns. *)
Record t := { message : string }.
End Notification.

Section Notifications.

Variable relay_accepts : nat → Email → bool.
Variable getFullYear : Z → string.

(** The reason a refused send is rejected with. *)
Variable rejection : JsError.

(** The text of [new Date(booking.show.showDateTime).toLocaleString()]
    for a show: the confirmation email reads the start time under the
    name [showDateTime]. *)
Variable showDateTime_text : ShowDoc → string.

(** [await sendEmail(e)]: a rejected send throws its reason. *)
Definition await_sendEmail (e : Email) : Eff World unit :=
  r ← sendEmail relay_accepts e;
  match r with
  | Fulfilled => mret ()
  | Rejected => throw rejection
  end.

(** The object literal of [sendBookingConfirmationEmail]. *)
Definition confirmation_email (now : Z) (b : BookingDoc) (u : UserDoc)
    (s : ShowDoc) (m : MovieDoc) : Email :=
  {| to := email u;
     subject := "Payment Confirmation: " +:+ dq +:+ title m +:+ dq +:+ " booked!";
     body := " <div style=" +:+ dq +:+ "font-family: Arial, sans-serif; max-width: 600px; margin: auto; padding: 20px;" +:+ dq +:+ ">
                <h2 style=" +:+ dq +:+ "color: #e50914;" +:+ dq +:+ ">🎟️ Movie Booking Confirmed!</h2>
                <p>Hi <strong>" +:+ name u +:+ "</strong>,</p>
                <p>Your booking has been confirmed. Here are the details:</p>

              <h3>" +:+ title m +:+ "</h3>
             <p><strong>Show Time:</strong> " +:+ showDateTime_text s +:+ "</p>
             <p><strong>Seats:</strong> " +:+ String.concat ", " (bookedSeats b) +:+ "</p>
             <p><strong>Total Paid:</strong> ₹" +:+ pretty (amount b) +:+ "</p>
    
             <a href=" +:+ dq +:+ "https://yourdomain.com/my-bookings" +:+ dq +:+ " style=" +:+ dq +:+ "display:inline-block;margin-top:20px;padding:12px 20px;background-color:#e50914;color:white;text-decoration:none;border-radius:6px;" +:+ dq +:+ ">
                 View My Booking
             </a>
             <p>Enjoy the show!</p>
             <p>Thanks for booking with us</p>
             <br />
             <p style=" +:+ dq +:+ "font-size:12px;color:#999;margin-top:40px;" +:+ dq +:+ ">© " +:+ getFullYear now +:+ "Quickshow.</p>
           </div>" |}.

(** [sendBookingConfirmationEmail], for [event.data.bookingId = bookingId].
    The properties of the object literal are evaluated in order:
    [booking.user.email] first, then [booking.show.movie.title]. *)
Definition sendBookingConfirmationEmail (now : Z) (bookingId : string) : Eff World unit :=
  booking ← find_booking_populated bookingId;
  match booking with
  | None => throw (TypeError "Cannot read properties of null (reading 'user')")
  | Some pb =>
      match pb_user pb with
      | None => throw (TypeError "Cannot read properties of null (reading 'email')")
      | Some u =>
          match pb_show pb with
          | None => throw (TypeError "Cannot read properties of null (reading 'movie')")
          | Some (s, None) => throw (TypeError "Cannot read properties of null (reading 'title')")
          | Some (s, Some m) => await_sendEmail (confirmation_email now (pb_booking pb) u s m)
          end
      end
  end.

(** The email of [sendNewShowNotifications] for one user. *)
Definition new_show_email (now : Z) (movieTitle movieId : string) (u : UserDoc) : Email :=
  {| to := email u;
     subject := "📽 New Show Added: " +:+ movieTitle;
     body := "
        <div style=" +:+ dq +:+ "font-family: Arial, sans-serif; max-width: 600px; margin: auto; padding: 20px;" +:+ dq +:+ ">
          <h2 style=" +:+ dq +:+ "color: #e50914;" +:+ dq +:+ ">🎬 A New Show Just Dropped!</h2>

          <p>Hi <strong>" +:+ name u +:+ "</strong>,</p>
          <p>We're excited to announce that a new show for <strong>" +:+ movieTitle +:+ "</strong> has just been added to QuickShow!</p>

          <p>Don't miss the chance to book your seats early and enjoy the experience on the big screen.</p>

          <a href=" +:+ dq +:+ "https://yourdomain.com/movies/" +:+ movieId +:+ dq +:+ " 
             style=" +:+ dq +:+ "display:inline-block;margin-top:20px;padding:12px 20px;background-color:#e50914;color:white;text-decoration:none;border-radius:6px;" +:+ dq +:+ ">
             Book Tickets Now
          </a>

          <p style=" +:+ dq +:+ "margin-top: 30px;" +:+ dq +:+ ">See you at the movies! 🍿</p>

          <p style=" +:+ dq +:+ "font-size:12px;color:#999;margin-top:40px;" +:+ dq +:+ ">© " +:+ getFullYear now +:+ " QuickShow.</p>
        </div>
      " |}.

(** The [for (const user of users)] loop: each send is awaited before the
    next one starts. *)
Fixpoint notify_users (now : Z) (movieTitle movieId : string)
    (found : list (string * UserDoc)) : Eff World unit :=
  match found with
  | [] => mret ()
  | u :: rest =>
      _ ← await_sendEmail (new_show_email now movieTitle movieId u.2);
      notify_users now movieTitle movieId rest
  end.

(** [sendNewShowNotifications], for [event.data = {movieTitle, movieId}]. *)
Definition sendNewShowNotifications (now : Z) (movieTitle movieId : string)
  : Eff World Notification.t :=
  found ← find_all_users;
  _ ← notify_users now movieTitle movieId found;
  mret {| Notification.message := "Notifications sent." |}.

(** The relay takes the first [n] sends made from [base] on. *)
Definition accepts_first (base n : nat) (emails : list Email) : Prop :=
  ∀ k e, k < n → emails !! k = Some e → relay_accepts (base + k) e = true.

End Notifications.

(** ** Reading the favourites *)

(** What [getFavourites] answers: [{success: true, movies}] or
    [{success: false, message}]. *)
Inductive FavouritesResponse :=
  | FavouritesFound (found : list (string * MovieDoc))
  | FavouritesFailed (message : string).

(** The controllers talk to the identity provider and to the database. *)
Definition on_clerk {A} (m : Eff Clerk A) : Eff (Clerk * World) A :=
  λ cw, match m cw.1 with (r, c') => (r, (c', cw.2)) end.

Definition on_db {A} (m : Eff World A) : Eff (Clerk * World) A :=
  λ cw, match m cw.2 with (r, w') => (r, (cw.1, w')) end.

Section Favourites.

(** What [Movie.find({_id: {$in: undefined}})] settles to: the answer of
    the object-document mapper to a caller who never toggled. *)
Variable find_in_undefined : Outcome (list (string * MovieDoc)).

(** [Movie.find({_id: {$in: favorites}})] *)
Definition find_movies_in (favorites : option (list string))
  : Eff World (list (string * MovieDoc)) :=
  λ w, (match favorites with
        | Some ids => Returned (map_to_list (filter (λ kv, kv.1 ∈ ids) (movies w)))
        | None => find_in_undefined
        end,
        log_call (Find Movies) w).

Definition getFavourites (userId : option string) : Eff (Clerk * World) FavouritesResponse :=
  try_catch
    (u ← on_clerk (clerkClient.getUser userId);
     let favorites := favorites u in
     found ← on_db (find_movies_in favorites);
     mret (FavouritesFound found))
    (λ error, mret (FavouritesFailed (message_of error))).

End Favourites.

(** ** Sample data *)

Definition sample_show : ShowDoc :=
  {| movie := "m1"; showTime := 1000;
     occupiedSeats := <["A1" := "u1"]> (<["A2" := "u1"]> (<["B1" := "u2"]> (<["C7" := "ghost"]> ∅))) |}.

Definition unpaid_booking : BookingDoc :=
  {| show := "s1"; user := "u1"; bookedSeats := ["A1"; "A2"]; isPaid := false; amount := 500 |}.

Definition paid_booking : BookingDoc :=
  {| show := "s1"; user := "u2"; bookedSeats := ["B1"]; isPaid := true; amount := 250 |}.

Definition sample_world : World :=
  {| users := <["u1" := {| email := "ann@example.org"; name := "Ann Lee"; image := "a.png" |}]>
                (<["u2" := {| email := "bob@example.org"; name := "Bob Roy"; image := "b.png" |}]> ∅);
     shows := <["s1" := sample_show]> ∅;
     bookings := <["b1" := unpaid_booking]> (<["b2" := paid_booking]> ∅);
     movies := <["m1" := {| title := "Dune" |}]> ∅;
     dbLog := [];
     mailLog := [] |}.

(** An unpaid booking that reserves no seat. *)
Definition seatless_booking : BookingDoc :=
  {| show := "s1"; user := "u1"; bookedSeats := []; isPaid := false; amount := 0 |}.

(** An update event for an identity without any email address. *)
Definition update_without_email : ClerkUserData :=
  {| id := "u9"; first_name := Some "Cy"; last_name := None;
     email_addresses := []; image_url := "c.png" |}.

Definition update_with_email : ClerkUserData :=
  {| id := "u9"; first_name := Some "Cy"; last_name := None;
     email_addresses := [{| email_address := "cy@example.org" |}]; image_url := "c.png" |}.

(** A relay that takes everything, and one that refuses its [j]-th send
    only. *)
Definition relay_always : nat → Email → bool := λ _ _, true.

Definition relay_refusing (j : nat) : nat → Email → bool := λ k _, bool_decide (k ≠ j).

Definition sample_locale : Z → string := λ _, "1/1/1970, 12:00:01 AM".

Definition sample_year : Z → string := λ _, "1970".

Definition sample_tasks : list Task.t :=
  [ {| Task.userEmail := "ann@example.org"; Task.userName := "Ann Lee";
       Task.movieTitle := "Dune"; Task.showTime := 1000 |};
    {| Task.userEmail := "bob@example.org"; Task.userName := "Bob Roy";
       Task.movieTitle := "Dune"; Task.showTime := 1000 |};
    {| Task.userEmail := "eve@example.org"; Task.userName := "Eve Poe";
       Task.movieTitle := "Heat"; Task.showTime := 2000 |} ].

(** Two users at the identity provider: one with favourites, one who
    never toggled. *)
Definition sample_clerk : Clerk :=
  <["u1" := {| favorites := Some ["m1"; "m2"]; otherKeys := ∅ |}]>
    (<["u2" := {| favorites := None; otherKeys := <["plan" := "free"]> ∅ |}]> ∅).

(** ** Worlds that differ by their logs *)

Definition add_calls (l : list DbCall) (w : World) : World :=
  {| users := users w; shows := shows w; bookings := bookings w;
     movies := movies w; dbLog := dbLog w ++ l; mailLog := mailLog w |}.

Definition add_mails (l : list (Email * Settled)) (w : World) : World :=
  {| users := users w; shows := shows w; bookings := bookings w;
     movies := movies w; dbLog := dbLog w; mailLog := mailLog w ++ l |}.

(** What the loop of the prepare step adds for one show, in the order the
    database hands the users back. *)
Definition found_tasks (us : gmap string UserDoc) (ps : PopulatedShow) : list Task.t :=
  match ps with
  | (s, Some m) =>
      if (length (seat_holders s) =? 0)%nat then []
      else reminder_task s m <$> map_to_list (filter (λ kv, kv.1 ∈ seat_holders s) us)
  | (s, None) => []
  end.

(** The document the sync handlers build from an event whose first email
    address is [a]. *)
Definition projected (d : ClerkUserData) (a : EmailAddress) : UserDoc :=
  {| email := email_address a;
     name := js_str (first_name d) +:+ " " +:+ js_str (last_name d);
     image := image_url d |}.

(** The emails of the new-show broadcast, one per user, in the order
    [User.find({})] lists the users. *)
Definition broadcast_emails (getFullYear : Z → string) (now : Z)
    (movieTitle movieId : string) (w : World) : list Email :=
  new_show_email getFullYear now movieTitle movieId <$> (snd <$> map_to_list (users w)).

(** A reason for the relay to reject with, and a rendering of the start
    time of a show. *)
Definition sample_rejection : JsError := TypeError "connect ECONNREFUSED 127.0.0.1:587".

Definition sample_showDateTime : ShowDoc → string := λ _, "1/1/1970, 12:00:01 AM".

(** *** The reminders owed, show by show

    One entry per show to remind about: the show under its id, its movie
    and the users to remind, each with the task the loop builds. *)
Record ShowReminders := {
  sr_id : string;
  sr_show : ShowDoc;
  sr_movie : MovieDoc;
  sr_users : list (string * UserDoc)
}.

Definition reminders_tasks (r : ShowReminders) : list Task.t :=
  (λ u : string * UserDoc,
     {| Task.userEmail := email u.2; Task.userName := name u.2;
        Task.movieTitle := title (sr_movie r);
        Task.showTime := showTime (sr_show r) |}) <$> sr_users r.

(** The users the [$in] query of line 145 finds for a show. *)
Definition found_users (w : World) (s : ShowDoc) : list (string * UserDoc) :=
  map_to_list (filter (λ kv, kv.1 ∈ seat_holders s) (users w)).

(** The entries for the shows of [found] whose movie resolves. *)
Definition owed (w : World) (found : list (string * ShowDoc)) : list ShowReminders :=
  omap (λ kv, (λ m, {| sr_id := kv.1; sr_show := kv.2; sr_movie := m;
                       sr_users := found_users w kv.2 |}) <$> movies w !! movie kv.2)
       found.

(** * Properties *)

(** Unfolds the monad so that a handler becomes a function of the world. *)
Ltac run_eff :=
  unfold mbind, mret, eff_bind, eff_ret, throw, try_catch in *; cbn beta iota.

Lemma calls_added_app (w w' : World) (l : list DbCall) :
  dbLog w' = dbLog w ++ l → calls_added w w' = l.
Proof. intros Hlog. unfold calls_added. rewrite Hlog. apply drop_app_length. Qed.

(** ** Seat release *)

Lemma lookup_release_seats (seats : list string) (occ : gmap string string) (k : string) :
  release_seats seats occ !! k = if decide (k ∈ seats) then None else occ !! k.
Proof.
  revert occ. induction seats as [|seat rest IH]; intros occ; cbn [release_seats].
  - rewrite decide_False; [done | apply not_elem_of_nil].
  - rewrite IH, lookup_delete.
    rewrite (decide_ext (k ∈ seat :: rest) (seat = k ∨ k ∈ rest))
      by (rewrite elem_of_cons; intuition congruence).
    destruct (decide (seat = k ∨ k ∈ rest)), (decide (k ∈ rest)), (decide (seat = k));
      try done; tauto.
Qed.

Lemma release_seats_idemp (seats : list string) (occ : gmap string string) :
  release_seats seats (release_seats seats occ) = release_seats seats occ.
Proof.
  apply map_eq; intros k. rewrite !lookup_release_seats.
  by destruct (decide (k ∈ seats)).
Qed.

Lemma lookup_release_seats_booked (seats : list string) (occ : gmap string string) (k : string) :
  k ∈ seats → release_seats seats occ !! k = None.
Proof. intros Hk. rewrite lookup_release_seats. by rewrite decide_True. Qed.

Lemma lookup_release_seats_other (seats : list string) (occ : gmap string string) (k : string) :
  k ∉ seats → release_seats seats occ !! k = occ !! k.
Proof. intros Hk. rewrite lookup_release_seats. by rewrite decide_False. Qed.

(** ** Booking-expiry workflow *)

(** What the step does in each of its four cases. *)
Lemma check_payment_status_missing (w : World) (bookingId : string) :
  bookings w !! bookingId = None →
  check_payment_status bookingId w =
    (Thrown (TypeError "Cannot read properties of null (reading 'isPaid')"),
     log_call (FindById Bookings bookingId) w).
Proof.
  intros Hb. unfold check_payment_status, Booking.findById. run_eff.
  by rewrite Hb.
Qed.

Lemma check_payment_status_paid (w : World) (bookingId : string) (b : BookingDoc) :
  bookings w !! bookingId = Some b → isPaid b = true →
  check_payment_status bookingId w =
    (Returned (), log_call (FindById Bookings bookingId) w).
Proof.
  intros Hb Hpaid. unfold check_payment_status, Booking.findById. run_eff.
  by rewrite Hb, Hpaid.
Qed.

Lemma check_payment_status_no_show (w : World) (bookingId : string) (b : BookingDoc) :
  bookings w !! bookingId = Some b → isPaid b = false →
  shows w !! show b = None →
  check_payment_status bookingId w =
    (Thrown (null_show_error (bookedSeats b)),
     log_call (FindById Shows (show b)) (log_call (FindById Bookings bookingId) w)).
Proof.
  intros Hb Hpaid Hs.
  unfold check_payment_status, Booking.findById, Show.findById. run_eff.
  rewrite Hb, Hpaid. cbn. by rewrite Hs.
Qed.

Lemma check_payment_status_unpaid (w : World) (bookingId : string) (b : BookingDoc) (s : ShowDoc) :
  bookings w !! bookingId = Some b → isPaid b = false →
  shows w !! show b = Some s →
  check_payment_status bookingId w =
    (Returned (),
     set_bookings (delete bookingId)
       (log_call (FindByIdAndDelete Bookings bookingId)
         (set_shows (insert (show b)
                       (with_occupiedSeats s (release_seats (bookedSeats b) (occupiedSeats s))))
           (log_call (Save Shows (show b))
             (log_call (FindById Shows (show b))
               (log_call (FindById Bookings bookingId) w)))))).
Proof.
  intros Hb Hpaid Hs.
  unfold check_payment_status, Booking.findById, Show.findById, Show.save,
    Booking.findByIdAndDelete. run_eff.
  rewrite Hb, Hpaid. cbn. by rewrite Hs.
Qed.

Lemma check_payment_status_interrupted_unpaid
    (w : World) (bookingId : string) (b : BookingDoc) (s : ShowDoc) :
  bookings w !! bookingId = Some b → isPaid b = false →
  shows w !! show b = Some s →
  check_payment_status_interrupted bookingId w =
    (Returned (),
     set_shows (insert (show b)
                  (with_occupiedSeats s (release_seats (bookedSeats b) (occupiedSeats s))))
       (log_call (Save Shows (show b))
         (log_call (FindById Shows (show b))
           (log_call (FindById Bookings bookingId) w)))).
Proof.
  intros Hb Hpaid Hs.
  unfold check_payment_status_interrupted, Booking.findById, Show.findById, Show.save.
  run_eff. rewrite Hb, Hpaid. cbn. by rewrite Hs.
Qed.

(** Whatever the case, an interrupted run that did not get to save the
    show changed no document. *)
Lemma check_payment_status_interrupted_else (w : World) (bookingId : string) :
  (∀ b s, bookings w !! bookingId = Some b → isPaid b = false →
          shows w !! show b = Some s → False) →
  same_data (check_payment_status_interrupted bookingId w).2 w.
Proof.
  intros Hnot.
  unfold check_payment_status_interrupted, Booking.findById, Show.findById, Show.save.
  run_eff. cbn.
  destruct (bookings w !! bookingId) as [b|] eqn:Hb; [|done].
  destruct (isPaid b) eqn:Hpaid; cbn; [done|].
  destruct (shows w !! show b) as [s|] eqn:Hs; [|done].
  destruct (Hnot b s); done.
Qed.

(** The step reads its case off the documents only. *)
Lemma check_payment_status_same_data (w1 w2 : World) (bookingId : string) :
  same_data w1 w2 →
  (check_payment_status bookingId w1).1 = (check_payment_status bookingId w2).1 ∧
  same_data (check_payment_status bookingId w1).2 (check_payment_status bookingId w2).2.
Proof.
  intros (Hu & Hs & Hb & Hm).
  destruct (bookings w1 !! bookingId) as [b|] eqn:Hb1.
  - destruct (isPaid b) eqn:Hpaid.
    + rewrite (check_payment_status_paid w1 _ b), (check_payment_status_paid w2 _ b);
        [by repeat split | by rewrite <- Hb | done | done | done].
    + destruct (shows w1 !! show b) as [s|] eqn:Hs1.
      * rewrite (check_payment_status_unpaid w1 _ b s), (check_payment_status_unpaid w2 _ b s);
          [| by rewrite <- Hb | done | by rewrite <- Hs | done | done | done].
        split; [done|]. unfold same_data; cbn. by rewrite Hu, Hs, Hb, Hm.
      * rewrite (check_payment_status_no_show w1 _ b), (check_payment_status_no_show w2 _ b);
          [by repeat split | by rewrite <- Hb | done | by rewrite <- Hs | done | done | done].
  - rewrite (check_payment_status_missing w1), (check_payment_status_missing w2);
      [by repeat split | by rewrite <- Hb | done].
Qed.

(** C1, as stated, fails: for a [bookingId] that refers to no booking,
    [Booking.findById] resolves to [null] and reading [booking.isPaid]
    throws, so the step does not complete successfully.  This is so for
    an id that never was a booking, and for the id of a booking that a
    first run of the step has just deleted. *)
Lemma check_payment_missing_booking_throws :
  bookings sample_world !! "b404" = None ∧
  returns (check_payment_status "b404" sample_world).1 = false ∧
  let after_first_run := (check_payment_status "b1" sample_world).2 in
  bookings after_first_run !! "b1" = None ∧
  returns (check_payment_status "b1" after_first_run).1 = false.
Proof. repeat split; vm_compute; reflexivity. Qed.

(** C1 (amended): for every state of the database, running the
    check-payment step with a [bookingId] that refers to no existing
    booking throws a [TypeError] after the one read of the booking; it
    makes no write, and every user, show, booking and movie is left
    unchanged. *)
Theorem check_payment_missing_booking (w : World) (bookingId : string) :
  bookings w !! bookingId = None →
  (check_payment_status bookingId w).1 =
    Thrown (TypeError "Cannot read properties of null (reading 'isPaid')") ∧
  same_data w (check_payment_status bookingId w).2 ∧
  calls_added w (check_payment_status bookingId w).2 = [FindById Bookings bookingId].
Proof.
  intros Hb. rewrite check_payment_status_missing by done. cbn [fst snd].
  split; [reflexivity|]. split; [by repeat split|].
  by apply calls_added_app.
Qed.

Lemma check_payment_missing_booking_witness :
  (check_payment_status "b404" sample_world).1 =
    Thrown (TypeError "Cannot read properties of null (reading 'isPaid')") ∧
  same_data sample_world (check_payment_status "b404" sample_world).2 ∧
  calls_added sample_world (check_payment_status "b404" sample_world).2
    = [FindById Bookings "b404"].
Proof. apply (check_payment_missing_booking sample_world "b404"). reflexivity. Defined.

(** C2: for every initial state and every [bookingId], the documents
    after running the check-payment step twice in a row are the
    documents after running it once; and so are the documents after a
    first run cut short between saving the show and deleting the booking,
    followed by a full run. *)
Theorem check_payment_status_idempotent (w : World) (bookingId : string) :
  let once := (check_payment_status bookingId w).2 in
  let twice := (check_payment_status bookingId once).2 in
  let cut_short := (check_payment_status_interrupted bookingId w).2 in
  let resumed := (check_payment_status bookingId cut_short).2 in
  same_data twice once ∧ same_data resumed once.
Proof.
  cbn zeta.
  destruct (bookings w !! bookingId) as [b|] eqn:Hb.
  - destruct (isPaid b) eqn:Hpaid.
    + (* paid: neither run writes *)
      split.
      * rewrite (check_payment_status_paid w _ b) by done. cbn [snd].
        rewrite (check_payment_status_paid _ _ b) by done. done.
      * apply (check_payment_status_same_data _ w).
        apply check_payment_status_interrupted_else. intros; congruence.
    + destruct (shows w !! show b) as [s|] eqn:Hs.
      * (* unpaid, show there: the second run finds no booking *)
        split.
        -- rewrite (check_payment_status_unpaid w _ b s) by done. cbn [snd].
           rewrite check_payment_status_missing; [done|]. cbn. apply lookup_delete_eq.
        -- rewrite (check_payment_status_interrupted_unpaid w _ b s) by done.
           rewrite (check_payment_status_unpaid w _ b s) by done. cbn [snd].
           rewrite (check_payment_status_unpaid _ _ b
                      (with_occupiedSeats s (release_seats (bookedSeats b) (occupiedSeats s))));
             [| done | done | cbn; apply lookup_insert_eq].
           unfold same_data; cbn.
           by rewrite release_seats_idemp, insert_insert_eq.
      * (* unpaid, show gone: both runs throw before any write *)
        split.
        -- rewrite (check_payment_status_no_show w _ b) by done. cbn [snd].
           rewrite (check_payment_status_no_show _ _ b) by done. done.
        -- apply (check_payment_status_same_data _ w).
           apply check_payment_status_interrupted_else. intros; congruence.
  - (* no booking: both runs throw before any write *)
    split.
    + rewrite (check_payment_status_missing w) by done. cbn [snd].
      rewrite check_payment_status_missing by done. done.
    + apply (check_payment_status_same_data _ w).
      apply check_payment_status_interrupted_else. intros; congruence.
Qed.

(** C3: for every booking with [isPaid = false] whose show exists, the
    check-payment step returns; the show is saved with exactly the
    booking's seat labels removed from its occupied-seat mapping (the
    entries of all other seats, and its other fields, as before); the
    booking is deleted; nothing else in the database changes. *)
Theorem check_payment_unpaid_releases
    (w : World) (bookingId : string) (b : BookingDoc) (s : ShowDoc) :
  bookings w !! bookingId = Some b → isPaid b = false →
  shows w !! show b = Some s →
  let w' := (check_payment_status bookingId w).2 in
  (check_payment_status bookingId w).1 = Returned () ∧
  (∃ s', shows w' !! show b = Some s' ∧
         movie s' = movie s ∧ showTime s' = showTime s ∧
         (∀ seat, seat ∈ bookedSeats b → occupiedSeats s' !! seat = None) ∧
         (∀ seat, seat ∉ bookedSeats b → occupiedSeats s' !! seat = occupiedSeats s !! seat)) ∧
  (∀ other, other ≠ show b → shows w' !! other = shows w !! other) ∧
  bookings w' = delete bookingId (bookings w) ∧
  users w' = users w ∧ movies w' = movies w ∧
  calls_added w w' =
    [FindById Bookings bookingId; FindById Shows (show b);
     Save Shows (show b); FindByIdAndDelete Bookings bookingId].
Proof.
  intros Hb Hpaid Hs. cbn zeta.
  rewrite (check_payment_status_unpaid w bookingId b s) by done. cbn [fst snd].
  split; [reflexivity|]. split.
  { eexists. split; [cbn; apply lookup_insert_eq|]. cbn.
    split; [done|]. split; [done|]. split.
    - intros seat. apply lookup_release_seats_booked.
    - intros seat. apply lookup_release_seats_other. }
  split. { intros other Hne. cbn. by rewrite lookup_insert_ne. }
  repeat (split; [reflexivity|]).
  apply calls_added_app. cbn. by rewrite <- !app_assoc.
Qed.

Lemma check_payment_unpaid_releases_witness :
  let w' := (check_payment_status "b1" sample_world).2 in
  (check_payment_status "b1" sample_world).1 = Returned () ∧
  (∃ s', shows w' !! "s1" = Some s' ∧
         movie s' = "m1" ∧ showTime s' = 1000%Z ∧
         (∀ seat, seat ∈ ["A1"; "A2"] → occupiedSeats s' !! seat = None) ∧
         (∀ seat, seat ∉ ["A1"; "A2"] →
                  occupiedSeats s' !! seat = occupiedSeats sample_show !! seat)) ∧
  (∀ other, other ≠ "s1" → shows w' !! other = shows sample_world !! other) ∧
  bookings w' = delete "b1" (bookings sample_world) ∧
  users w' = users sample_world ∧ movies w' = movies sample_world ∧
  calls_added sample_world w' =
    [FindById Bookings "b1"; FindById Shows "s1";
     Save Shows "s1"; FindByIdAndDelete Bookings "b1"].
Proof.
  apply (check_payment_unpaid_releases sample_world "b1" unpaid_booking sample_show);
    reflexivity.
Defined.

(** C4: for every booking with [isPaid = true], the check-payment step
    returns having made no write: the booking, the show it refers to
    (with its occupied-seat mapping) and every other document are
    unchanged, and its only call on the database is the read of the
    booking. *)
Theorem check_payment_paid_untouched (w : World) (bookingId : string) (b : BookingDoc) :
  bookings w !! bookingId = Some b → isPaid b = true →
  let w' := (check_payment_status bookingId w).2 in
  (check_payment_status bookingId w).1 = Returned () ∧
  bookings w' !! bookingId = Some b ∧
  shows w' !! show b = shows w !! show b ∧
  same_data w w' ∧
  calls_added w w' = [FindById Bookings bookingId] ∧
  Forall (λ c, is_write c = false) (calls_added w w').
Proof.
  intros Hb Hpaid. cbn zeta.
  rewrite (check_payment_status_paid w bookingId b) by done. cbn [fst snd].
  assert (calls_added w (log_call (FindById Bookings bookingId) w)
          = [FindById Bookings bookingId]) as Hcalls by by apply calls_added_app.
  rewrite Hcalls.
  split; [reflexivity|]. split; [exact Hb|]. split; [reflexivity|].
  split; [by repeat split|]. split; [reflexivity|].
  by constructor.
Qed.

Lemma check_payment_paid_untouched_witness :
  let w' := (check_payment_status "b2" sample_world).2 in
  (check_payment_status "b2" sample_world).1 = Returned () ∧
  bookings w' !! "b2" = Some paid_booking ∧
  shows w' !! "s1" = shows sample_world !! "s1" ∧
  same_data sample_world w' ∧
  calls_added sample_world w' = [FindById Bookings "b2"] ∧
  Forall (λ c, is_write c = false) (calls_added sample_world w').
Proof.
  apply (check_payment_paid_untouched sample_world "b2" paid_booking); reflexivity.
Defined.

(** ** Reminder sweep: the prepare step *)

Lemma add_calls_nil (w : World) : add_calls [] w = w.
Proof. destruct w. unfold add_calls; cbn. by rewrite app_nil_r. Qed.

Lemma add_calls_add_calls (l1 l2 : list DbCall) (w : World) :
  add_calls l2 (add_calls l1 w) = add_calls (l1 ++ l2) w.
Proof. unfold add_calls; cbn. by rewrite app_assoc. Qed.

(** The loop returns, having only read: it appends, show by show, the
    tasks of the users the query finds. *)
Lemma collect_tasks_spec (found : list PopulatedShow) (tasks : list Task.t) (w : World) :
  ∃ l, collect_tasks found tasks w
         = (Returned (tasks ++ flat_map (found_tasks (users w)) found), add_calls l w) ∧
       Forall (λ c, is_write c = false) l.
Proof.
  revert tasks w. induction found as [|[s [m|]] rest IH]; intros tasks w.
  - exists []. cbn. by rewrite app_nil_r, add_calls_nil.
  - cbn [collect_tasks flat_map found_tasks].
    destruct (length (seat_holders s) =? 0)%nat; [apply IH|].
    unfold User.find_in. run_eff.
    destruct (IH (tasks ++ (reminder_task s m <$>
                   map_to_list (filter (λ kv, kv.1 ∈ seat_holders s) (users w))))
                 (log_call (Find Users) w)) as (l & Heq & Hl).
    exists (Find Users :: l). rewrite Heq. cbn [users log_call].
    rewrite <- app_assoc. split; [|by constructor].
    f_equal. apply (add_calls_add_calls [Find Users] l w).
  - cbn [collect_tasks flat_map found_tasks]. apply IH.
Qed.

(** Looking the holders up one by one finds the users the [$in] query
    finds. *)
Lemma find_in_resolves (us : gmap string UserDoc) (ids : list string) :
  NoDup ids →
  map_to_list (filter (λ kv, kv.1 ∈ ids) us)
    ≡ₚ omap (λ uid, (λ u, (uid, u)) <$> us !! uid) ids.
Proof.
  intros Hids. apply NoDup_Permutation.
  - apply NoDup_map_to_list.
  - induction Hids as [|uid ids Hnotin Hnodup IH]; cbn; [constructor|].
    destruct (us !! uid) as [u|]; cbn; [|exact IH].
    constructor; [|exact IH].
    intros (uid' & Hin & Hsome)%list_elem_of_omap.
    destruct (us !! uid') as [u'|]; cbn in Hsome; [|done].
    by injection Hsome as -> ->.
  - intros [uid u]. rewrite elem_of_map_to_list, map_lookup_filter_Some, list_elem_of_omap.
    cbn. split.
    + intros [Hu Hin]. exists uid. by rewrite Hu.
    + intros (uid' & Hin & Hsome).
      destruct (us !! uid') as [u'|] eqn:Hu'; cbn in Hsome; [|done].
      by injection Hsome as -> ->.
Qed.

Lemma found_tasks_expected (w : World) (ps : PopulatedShow) :
  found_tasks (users w) ps ≡ₚ tasks_of_show w ps.
Proof.
  destruct ps as [s [m|]]; cbn; [|done].
  destruct (length (seat_holders s) =? 0)%nat eqn:Hlen.
  - apply Nat.eqb_eq, nil_length_inv in Hlen.
    unfold resolved_holders. by rewrite Hlen.
  - unfold resolved_holders. apply fmap_Permutation, find_in_resolves.
    apply NoDup_remove_dups.
Qed.

Lemma flat_map_found_tasks_expected (w : World) (found : list PopulatedShow) :
  flat_map (found_tasks (users w)) found ≡ₚ expected_tasks w found.
Proof.
  unfold expected_tasks. induction found as [|ps rest IH]; cbn; [done|].
  by rewrite found_tasks_expected, IH.
Qed.

(** A holder without a user record is not among the resolved ones, and
    a holder with one is there once. *)
Lemma resolved_holders_spec (w : World) (s : ShowDoc) (uid : string) (u : UserDoc) :
  (uid, u) ∈ resolved_holders w s ↔ uid ∈ seat_holders s ∧ users w !! uid = Some u.
Proof.
  unfold resolved_holders. rewrite list_elem_of_omap. split.
  - intros (uid' & Hin & Hsome).
    destruct (users w !! uid') as [u'|] eqn:Hu'; cbn in Hsome; [|done].
    by injection Hsome as -> ->.
  - intros [Hin Hu]. exists uid. by rewrite Hu.
Qed.

Lemma resolved_holders_NoDup (w : World) (s : ShowDoc) :
  NoDup (resolved_holders w s).*1.
Proof.
  unfold resolved_holders, seat_holders.
  generalize (NoDup_remove_dups (snd <$> map_to_list (occupiedSeats s))).
  generalize (remove_dups (snd <$> map_to_list (occupiedSeats s))) as ids.
  intros ids Hids. induction Hids as [|uid ids Hnotin Hnodup IH]; cbn; [constructor|].
  destruct (users w !! uid) as [u|]; cbn; [|exact IH].
  constructor; [|exact IH].
  intros ([uid' u'] & Heq & Hin)%list_elem_of_fmap. cbn in Heq. subst uid'.
  apply list_elem_of_omap in Hin as (uid'' & Hin & Hsome).
  destruct (users w !! uid'') as [u''|]; cbn in Hsome; [|done].
  injection Hsome as -> ->. done.
Qed.

Lemma elem_of_seat_holders (s : ShowDoc) (uid : string) :
  uid ∈ seat_holders s ↔ ∃ seat, occupiedSeats s !! seat = Some uid.
Proof.
  unfold seat_holders. rewrite elem_of_remove_dups, list_elem_of_fmap. split.
  - intros ([seat uid'] & -> & Hin). exists seat. by apply elem_of_map_to_list.
  - intros [seat Hseat]. exists (seat, uid). split; [done|]. by apply elem_of_map_to_list.
Qed.

Lemma in_window_spec (windowStart in8Hours : Z) (s : ShowDoc) :
  in_window windowStart in8Hours s = true ↔ (windowStart ≤ showTime s ≤ in8Hours)%Z.
Proof.
  unfold in_window. rewrite andb_true_iff, !bool_decide_eq_true. done.
Qed.

(** A show without seat holders is skipped by the loop, and the query
    would have found nobody for it. *)
Lemma found_users_no_holders (w : World) (s : ShowDoc) :
  seat_holders s = [] → found_users w s = [].
Proof.
  intros Hnone. unfold found_users. apply elem_of_nil_inv. intros [uid u].
  rewrite elem_of_map_to_list, map_lookup_filter_Some, Hnone. cbn.
  intros [_ Hin]. by apply elem_of_nil in Hin.
Qed.

Lemma found_users_spec (w : World) (s : ShowDoc) (uid : string) (u : UserDoc) :
  (uid, u) ∈ found_users w s ↔
  (∃ seat, occupiedSeats s !! seat = Some uid) ∧ users w !! uid = Some u.
Proof.
  unfold found_users.
  rewrite elem_of_map_to_list, map_lookup_filter_Some, elem_of_seat_holders. cbn. tauto.
Qed.

(** The tasks the loop builds are those of the entries owed, in order. *)
Lemma found_tasks_owed (w : World) (found : list (string * ShowDoc)) :
  flat_map (found_tasks (users w))
           ((λ kv : string * ShowDoc, (kv.2, movies w !! movie kv.2)) <$> found)
  = flat_map reminders_tasks (owed w found).
Proof.
  induction found as [|[sid s] rest IH]; [done|].
  unfold owed in *. cbn [fmap list_fmap flat_map omap list_omap fst snd].
  destruct (movies w !! movie s) as [m|]; cbn [found_tasks fmap option_fmap option_map flat_map].
  - rewrite IH. f_equal.
    destruct (length (seat_holders s) =? 0)%nat eqn:Hlen.
    + apply Nat.eqb_eq, nil_length_inv in Hlen.
      unfold reminders_tasks; cbn. by rewrite found_users_no_holders.
    + reflexivity.
  - exact IH.
Qed.

Lemma elem_of_owed (w : World) (found : list (string * ShowDoc)) (r : ShowReminders) :
  r ∈ owed w found ↔
  (sr_id r, sr_show r) ∈ found ∧
  movies w !! movie (sr_show r) = Some (sr_movie r) ∧
  sr_users r = found_users w (sr_show r).
Proof.
  unfold owed. rewrite list_elem_of_omap. split.
  - intros ([sid s] & Hin & Hsome). cbn in Hsome.
    destruct (movies w !! movie s) as [m|] eqn:Hm; cbn in Hsome; [|done].
    injection Hsome as <-. by cbn.
  - intros (Hin & Hm & Hus). exists (sr_id r, sr_show r). split; [done|].
    cbn. rewrite Hm. cbn. destruct r; cbn in *. by rewrite Hus.
Qed.

Lemma owed_ids_NoDup (w : World) (found : list (string * ShowDoc)) :
  NoDup found.*1 → NoDup (sr_id <$> owed w found).
Proof.
  induction found as [|[sid s] rest IH]; intros Hnodup; [constructor|].
  apply NoDup_cons in Hnodup as [Hfresh Hnodup].
  unfold owed in *. cbn [omap list_omap fst snd].
  destruct (movies w !! movie s) as [m|]; cbn; [|by apply IH].
  constructor; [|by apply IH].
  intros (r & Hid & Hr)%list_elem_of_fmap. cbn in Hid.
  apply (elem_of_owed w rest r) in Hr as (Hin & _ & _).
  apply Hfresh. apply list_elem_of_fmap. exists (sr_id r, sr_show r). by split.
Qed.

(** C10: the prepare step returns, with no error and without writing.
    Its tasks are, show by show, those of one entry for each show that
    starts within the window and has its movie, each show being there
    once; the users of an entry are exactly the user records whose id is
    the value of some seat in the show's occupied-seat mapping, each
    user once, and its tasks are one per such user, built from that
    user's email and name and the show's movie title and start time.  A
    seat-holder identity that matches no user record is among the users
    of no entry: no task is built for it. *)
Theorem prepare_reminder_tasks_resolved (windowStart in8Hours : Z) (w : World) :
  ∃ tasks calls per_show,
    prepare_reminder_tasks windowStart in8Hours w = (Returned tasks, add_calls calls w) ∧
    Forall (λ c, is_write c = false) calls ∧
    tasks = flat_map reminders_tasks per_show ∧
    NoDup (sr_id <$> per_show) ∧
    (∀ sid s m,
       shows w !! sid = Some s → (windowStart ≤ showTime s ≤ in8Hours)%Z →
       movies w !! movie s = Some m →
       ∃ us, {| sr_id := sid; sr_show := s; sr_movie := m; sr_users := us |} ∈ per_show) ∧
    (∀ r, r ∈ per_show →
       shows w !! sr_id r = Some (sr_show r) ∧
       (windowStart ≤ showTime (sr_show r) ≤ in8Hours)%Z ∧
       movies w !! movie (sr_show r) = Some (sr_movie r) ∧
       NoDup (sr_users r).*1 ∧
       (∀ uid u, (uid, u) ∈ sr_users r ↔
                 (∃ seat, occupiedSeats (sr_show r) !! seat = Some uid) ∧
                 users w !! uid = Some u) ∧
       (∀ seat uid, occupiedSeats (sr_show r) !! seat = Some uid →
                    users w !! uid = None → uid ∉ (sr_users r).*1)).
Proof.
  unfold prepare_reminder_tasks, find_shows_in_window. run_eff.
  destruct (collect_tasks_spec (shows_in_window windowStart in8Hours w) []
              (log_call (Find Shows) w)) as (l & Heq & Hl).
  set (found := map_to_list
                  (filter (λ kv, in_window windowStart in8Hours kv.2 = true) (shows w))).
  assert (∀ sid s, (sid, s) ∈ found ↔
                   shows w !! sid = Some s ∧ (windowStart ≤ showTime s ≤ in8Hours)%Z)
    as Hfound.
  { intros sid s. unfold found.
    rewrite elem_of_map_to_list, map_lookup_filter_Some. cbn.
    by rewrite in_window_spec. }
  exists (flat_map reminders_tasks (owed w found)), (Find Shows :: l), (owed w found).
  split.
  { rewrite Heq. cbn [app users log_call]. f_equal.
    - f_equal. apply found_tasks_owed.
    - apply (add_calls_add_calls [Find Shows] l w). }
  split; [by constructor|]. split; [reflexivity|].
  split; [apply owed_ids_NoDup, NoDup_fst_map_to_list|].
  split.
  { intros sid s m Hs Hwin Hm. exists (found_users w s).
    apply elem_of_owed. cbn. split; [by apply Hfound|]. by split. }
  intros r (Hin & Hm & Hus)%elem_of_owed.
  apply Hfound in Hin as [Hs Hwin]. rewrite Hus.
  split; [exact Hs|]. split; [exact Hwin|]. split; [exact Hm|].
  split; [apply NoDup_fst_map_to_list|].
  split; [intros uid u; apply found_users_spec|].
  intros seat uid Hseat Hnone ([uid' u] & Heq' & Hu)%list_elem_of_fmap.
  cbn in Heq'. subst uid'. apply found_users_spec in Hu as [_ Hsome]. congruence.
Qed.

(** The prepare step cannot throw. *)
Lemma prepare_reminder_tasks_returns (windowStart in8Hours : Z) (w : World) :
  ∃ tasks calls,
    prepare_reminder_tasks windowStart in8Hours w = (Returned tasks, add_calls calls w).
Proof.
  unfold prepare_reminder_tasks, find_shows_in_window. run_eff.
  destruct (collect_tasks_spec (shows_in_window windowStart in8Hours w) []
              (log_call (Find Shows) w)) as (l & Heq & _).
  do 2 eexists. rewrite Heq. f_equal.
  apply (add_calls_add_calls [Find Shows] l w).
Qed.

(** ** Reminder sweep: dispatch and summary *)

Section Dispatch.

Variable relay_accepts : nat → Email → bool.
Variable toLocaleString : Z → string.
Variable getFullYear : Z → string.

Local Abbreviation email_of := (reminder_email toLocaleString getFullYear).
Local Abbreviation outcomes := (relay_outcomes relay_accepts).

Lemma add_mails_add_mails (l1 l2 : list (Email * Settled)) (w : World) :
  add_mails l2 (add_mails l1 w) = add_mails (l1 ++ l2) w.
Proof. unfold add_mails; cbn. by rewrite app_assoc. Qed.

Lemma length_relay_outcomes (base : nat) (emails : list Email) :
  length (outcomes base emails) = length emails.
Proof. revert base. induction emails as [|e rest IH]; intros base; cbn; [done|]. by rewrite IH. Qed.

(** Every email is handed to the relay, in order, whatever the outcomes
    of the others. *)
Lemma allSettled_spec (emails : list Email) (w : World) :
  allSettled relay_accepts emails w =
    (Returned (outcomes (length (mailLog w)) emails),
     add_mails (zip emails (outcomes (length (mailLog w)) emails)) w).
Proof.
  revert w. induction emails as [|e rest IH]; intros w.
  - cbn. destruct w. unfold add_mails; cbn. by rewrite app_nil_r.
  - cbn [allSettled]. unfold sendEmail. run_eff. rewrite IH.
    cbn [mailLog log_mail relay_outcomes zip zip_with].
    rewrite length_app, Nat.add_1_r. f_equal.
    apply (add_mails_add_mails [_] _ w).
Qed.

Lemma mail_added_add_mails (l : list (Email * Settled)) (w : World) :
  mail_added w (add_mails l w) = l.
Proof. unfold mail_added, add_mails; cbn. apply drop_app_length. Qed.

(** Counting the fulfilled outcomes. *)
Lemma all_accepted (base : nat) (emails : list Email) :
  (∀ k e, emails !! k = Some e → relay_accepts (base + k) e = true) →
  length (filter (λ r, r = Fulfilled) (outcomes base emails)) = length emails.
Proof.
  revert base. induction emails as [|e rest IH]; intros base Hall; [done|].
  cbn [relay_outcomes length].
  pose proof (Hall 0 e eq_refl) as Hhead. rewrite Nat.add_0_r in Hhead. rewrite Hhead.
  rewrite filter_cons_True by done. cbn [length]. f_equal. apply IH.
  intros k e' Hk. rewrite <- (Hall (S k) e' Hk). f_equal. lia.
Qed.

Lemma one_rejected (base j : nat) (emails : list Email) :
  only_fails_at relay_accepts base j emails →
  length (filter (λ r, r = Fulfilled) (outcomes base emails)) = length emails - 1.
Proof.
  revert base j. induction emails as [|e rest IH]; intros base j [Hj Hacc];
    cbn [length] in Hj; [lia|].
  cbn [relay_outcomes length].
  pose proof (Hacc 0 e eq_refl) as Hhead. rewrite Nat.add_0_r in Hhead. rewrite Hhead.
  destruct j as [|j'].
  - rewrite bool_decide_eq_false_2 by (intros ?; done).
    rewrite filter_cons_False by done. rewrite Nat.sub_1_r. cbn [Nat.pred].
    apply all_accepted. intros k e' Hk.
    replace (S base + k) with (base + S k) by lia. rewrite (Hacc (S k) e' Hk).
    by apply bool_decide_eq_true_2.
  - rewrite bool_decide_eq_true_2 by done.
    rewrite filter_cons_True by done. cbn [length].
    rewrite (IH (S base) j').
    + lia.
    + split; [lia|]. intros k e' Hk.
      replace (S base + k) with (base + S k) by lia. rewrite (Hacc (S k) e' Hk).
      apply bool_decide_ext. lia.
Qed.

(** What the sweep returns once the tasks are known. *)
Lemma remind_nil (now : Z) (w : World) :
  remind relay_accepts toLocaleString getFullYear now [] w =
    (Returned {| Summary.sent := 0; Summary.failed := None;
                 Summary.message := "No reminders to send" |}, w).
Proof. reflexivity. Qed.

Lemma remind_cons (now : Z) (t : Task.t) (rest : list Task.t) (w : World) :
  let emails := email_of now <$> t :: rest in
  let results := outcomes (length (mailLog w)) emails in
  let sent := length (filter (λ r, r = Fulfilled) results) in
  remind relay_accepts toLocaleString getFullYear now (t :: rest) w =
    (Returned {| Summary.sent := sent; Summary.failed := Some (length results - sent);
                 Summary.message := "Sent " +:+ pretty sent +:+ " reminders, "
                                    +:+ pretty (length results - sent) +:+ " failed." |},
     add_mails (zip emails results) w).
Proof.
  cbn zeta. unfold remind, send_all_reminders. cbn [length Nat.eqb]. run_eff.
  by rewrite allSettled_spec.
Qed.

(** C5: for every list of N reminder tasks of which exactly one send (the
    [j]-th) is refused by the relay and all others go through, the sweep
    hands all N emails to the relay, in order, and returns the summary
    with [sent = N - 1] and [failed = 1]; and this is what the cron
    handler returns whenever its prepare step produced these tasks. *)
Theorem reminders_one_failure (now : Z) (tasks : list Task.t) (w : World) (j : nat) :
  only_fails_at relay_accepts (length (mailLog w)) j (email_of now <$> tasks) →
  let run := remind relay_accepts toLocaleString getFullYear now tasks w in
  run.1 = Returned {| Summary.sent := length tasks - 1; Summary.failed := Some 1;
                      Summary.message := "Sent " +:+ pretty (length tasks - 1)
                                         +:+ " reminders, 1 failed." |} ∧
  (mail_added w run.2).*1 = email_of now <$> tasks ∧
  length (mail_added w run.2) = length tasks ∧
  (∀ w0, prepare_reminder_tasks (now + 8 * 60 * 60 * 1000 - 10 * 60 * 1000)
                                (now + 8 * 60 * 60 * 1000) w0 = (Returned tasks, w) →
         sendShowReminders relay_accepts toLocaleString getFullYear now w0 = run).
Proof.
  intros Hone. cbn zeta.
  pose proof (one_rejected _ _ _ Hone) as Hsent.
  destruct Hone as [Hj _]. rewrite length_fmap in Hj, Hsent.
  destruct tasks as [|t rest]; [cbn in Hj; lia|].
  rewrite remind_cons. cbn [fst snd]. rewrite mail_added_add_mails.
  rewrite length_relay_outcomes, Hsent, length_fmap.
  replace (length (t :: rest) - (length (t :: rest) - 1)) with 1 by (cbn; lia).
  split; [reflexivity|]. split.
  { apply fst_zip. by rewrite length_relay_outcomes. }
  split.
  { rewrite length_zip, length_relay_outcomes, length_fmap. lia. }
  intros w0 Hprep. unfold sendShowReminders. run_eff. rewrite Hprep.
  rewrite remind_cons. rewrite length_relay_outcomes, Hsent, length_fmap.
  by replace (length (t :: rest) - (length (t :: rest) - 1)) with 1 by (cbn; lia).
Qed.

(** C6 (amended): the prepare step always returns; when it produces no
    task, the sweep returns [{sent: 0, message: "No reminders to send"}],
    a summary without a failed count, and hands nothing to the relay;
    when it produces at least one task, the sweep hands every email to
    the relay and returns a summary with both a sent and a failed count,
    which add up to the number of tasks. *)
Theorem sweep_summary (now : Z) (w : World) :
  let run := sendShowReminders relay_accepts toLocaleString getFullYear now w in
  ∃ tasks calls,
    prepare_reminder_tasks (now + 8 * 60 * 60 * 1000 - 10 * 60 * 1000)
                           (now + 8 * 60 * 60 * 1000) w
      = (Returned tasks, add_calls calls w) ∧
    (tasks = [] →
       run = (Returned {| Summary.sent := 0; Summary.failed := None;
                          Summary.message := "No reminders to send" |},
              add_calls calls w) ∧
       mail_added w run.2 = []) ∧
    (tasks ≠ [] →
       ∃ sent failed,
         run.1 = Returned {| Summary.sent := sent; Summary.failed := Some failed;
                             Summary.message := "Sent " +:+ pretty sent +:+ " reminders, "
                                                +:+ pretty failed +:+ " failed." |} ∧
         sent + failed = length tasks ∧
         (mail_added w run.2).*1 = email_of now <$> tasks).
Proof.
  cbn zeta.
  destruct (prepare_reminder_tasks_returns
              (now + 8 * 60 * 60 * 1000 - 10 * 60 * 1000) (now + 8 * 60 * 60 * 1000) w)
    as (tasks & calls & Hprep).
  exists tasks, calls. split; [exact Hprep|].
  unfold sendShowReminders. run_eff. rewrite Hprep. split.
  - intros ->. rewrite remind_nil. split; [reflexivity|].
    unfold mail_added; cbn. apply drop_all.
  - intros Hne. destruct tasks as [|t rest]; [done|].
    rewrite remind_cons. cbn [fst snd]. do 2 eexists. split; [reflexivity|].
    rewrite length_relay_outcomes, length_fmap. split.
    + pose proof (length_filter (λ r, r = Fulfilled)
                    (outcomes (length (mailLog (add_calls calls w)))
                              (email_of now <$> t :: rest))) as Hle.
      rewrite length_relay_outcomes, length_fmap in Hle. lia.
    + unfold mail_added; cbn [mailLog add_mails add_calls].
      rewrite drop_app_length. apply fst_zip. by rewrite length_relay_outcomes.
Qed.

End Dispatch.

(** C6, as stated, fails on the early return: when no show starts in the
    window there is no task, and the summary returned has a sent count
    and a message but no failed count. *)
Lemma sweep_without_tasks_has_no_failed_count :
  ∃ summary,
    (sendShowReminders relay_always sample_locale sample_year 0 sample_world).1
      = Returned summary ∧
    Summary.sent summary = 0 ∧
    Summary.message summary = "No reminders to send" ∧
    Summary.failed summary = None.
Proof. eexists. split; [vm_compute; reflexivity|]. by repeat split. Qed.

Lemma reminders_one_failure_witness :
  let run := remind (relay_refusing 1) sample_locale sample_year 0 sample_tasks sample_world in
  run.1 = Returned {| Summary.sent := 2; Summary.failed := Some 1;
                      Summary.message := "Sent 2 reminders, 1 failed." |} ∧
  (mail_added sample_world run.2).*1
    = (reminder_email sample_locale sample_year 0 <$> sample_tasks) ∧
  length (mail_added sample_world run.2) = 3 ∧
  (∀ w0, prepare_reminder_tasks (0 + 8 * 60 * 60 * 1000 - 10 * 60 * 1000)
                                (0 + 8 * 60 * 60 * 1000) w0
           = (Returned sample_tasks, sample_world) →
         sendShowReminders (relay_refusing 1) sample_locale sample_year 0 w0 = run).
Proof.
  apply (reminders_one_failure (relay_refusing 1) sample_locale sample_year
           0 sample_tasks sample_world 1).
  split; [cbn; lia|].
  intros k e _. unfold relay_refusing. reflexivity.
Defined.

(** ** User sync *)

(** C8, as stated, fails on an update event whose [email_addresses] is
    empty: the handler throws on [email_addresses[0].email_address],
    whatever the database holds. *)
Lemma update_without_email_throws :
  users sample_world !! id update_without_email = None ∧
  returns (syncUserUpdation update_without_email sample_world).1 = false.
Proof. split; reflexivity. Qed.

(** C8 (amended): for every database state and every update event whose
    [id] matches no user record, the handler leaves the user collection,
    and every other document, unchanged: nothing is inserted.  It returns
    without throwing when the event lists at least one email address,
    and throws before any call on the database when it lists none. *)
Theorem update_absent_user_unchanged (w : World) (d : ClerkUserData) :
  users w !! id d = None →
  let run := syncUserUpdation d w in
  same_data w run.2 ∧
  (email_addresses d ≠ [] →
     run.1 = Returned () ∧ calls_added w run.2 = [FindByIdAndUpdate Users (id d)]) ∧
  (email_addresses d = [] → returns run.1 = false ∧ run.2 = w).
Proof.
  intros Habsent. cbn zeta.
  unfold syncUserUpdation, userData, User.findByIdAndUpdate.
  destruct (email_addresses d) as [|a rest]; run_eff; cbn.
  - by repeat split.
  - rewrite Habsent. cbn. split; [by repeat split|]. split; [|done].
    intros _. split; [reflexivity|]. by apply calls_added_app.
Qed.

Lemma update_absent_user_unchanged_witness :
  let run := syncUserUpdation update_with_email sample_world in
  same_data sample_world run.2 ∧
  run.1 = Returned () ∧
  calls_added sample_world run.2 = [FindByIdAndUpdate Users "u9"].
Proof.
  destruct (update_absent_user_unchanged sample_world update_with_email eq_refl)
    as (Hdata & Hreturns & _).
  split; [exact Hdata|]. apply Hreturns. discriminate.
Defined.

(** ** Favourites *)

Lemma updateFavourite_found (c : Clerk) (uid movieId : string) (md : PrivateMetadata) :
  c !! uid = Some md →
  updateFavourite {| auth_userId := Some uid; body_movieId := movieId |} c =
    (Returned {| Response.success := true;
                 Response.message := "Favourite movies updated successfully" |},
     <[uid := {| favorites := Some (toggle_favorite movieId (favorites md));
                 otherKeys := otherKeys md |}]> c).
Proof.
  intros Hc. unfold updateFavourite, clerkClient.getUser, clerkClient.updateUserMetadata.
  run_eff. cbn. rewrite Hc. cbn. by rewrite Hc.
Qed.

Lemma stored_favorites_insert (c : Clerk) (uid : string) (l : list string)
    (other : gmap string string) :
  stored_favorites (<[uid := {| favorites := Some l; otherKeys := other |}]> c) uid = l.
Proof. unfold stored_favorites. by rewrite lookup_insert_eq. Qed.

Lemma occurrences_app (x : string) (l1 l2 : list string) :
  occurrences x (l1 ++ l2) = occurrences x l1 + occurrences x l2.
Proof. unfold occurrences. by rewrite filter_app, length_app. Qed.

Lemma occurrences_absent (x : string) (l : list string) :
  x ∉ l → occurrences x l = 0.
Proof.
  unfold occurrences. induction l as [|y l IH]; intros Hx; [done|].
  apply not_elem_of_cons in Hx as [Hne Hx].
  rewrite filter_cons_False by congruence. by apply IH.
Qed.

Lemma not_in_filter_ne (x : string) (l : list string) :
  x ∉ filter (λ item, item ≠ x) l.
Proof. rewrite list_elem_of_filter. tauto. Qed.

Lemma filter_ne_absent (x : string) (l : list string) :
  x ∉ l → filter (λ item, item ≠ x) l = l.
Proof.
  induction l as [|y l IH]; intros Hx; [done|].
  apply not_elem_of_cons in Hx as [Hne Hx].
  rewrite filter_cons_True by congruence. by rewrite IH.
Qed.

(** The toggle, on the list itself. *)
Lemma toggle_favorite_absent (x : string) (l : list string) :
  x ∉ l → toggle_favorite x (Some l) = l ++ [x].
Proof. intros Hx. unfold toggle_favorite. by rewrite bool_decide_eq_false_2. Qed.

Lemma toggle_favorite_present (x : string) (l : list string) :
  x ∈ l → toggle_favorite x (Some l) = filter (λ item, item ≠ x) l.
Proof. intros Hx. unfold toggle_favorite. by rewrite bool_decide_eq_true_2. Qed.

Lemma toggle_twice_elem (x y : string) (l : list string) :
  y ∈ toggle_favorite x (Some (toggle_favorite x (Some l))) ↔ y ∈ l.
Proof.
  destruct (decide (x ∈ l)) as [Hin|Hout].
  - rewrite (toggle_favorite_present x l Hin).
    rewrite toggle_favorite_absent by apply not_in_filter_ne.
    rewrite elem_of_app, list_elem_of_filter, list_elem_of_singleton.
    destruct (decide (y = x)) as [->|Hne]; tauto.
  - rewrite (toggle_favorite_absent x l Hout).
    rewrite toggle_favorite_present by (apply elem_of_app; right; by left).
    rewrite filter_app, filter_cons_False, filter_nil, app_nil_r by tauto.
    by rewrite filter_ne_absent.
Qed.

Lemma toggle_twice_perm (x : string) (l : list string) :
  NoDup l → toggle_favorite x (Some (toggle_favorite x (Some l))) ≡ₚ l.
Proof.
  intros Hnodup. apply NoDup_Permutation; [| done | intros y; apply toggle_twice_elem].
  destruct (decide (x ∈ l)) as [Hin|Hout].
  - rewrite (toggle_favorite_present x l Hin).
    rewrite toggle_favorite_absent by apply not_in_filter_ne.
    apply NoDup_app. split; [by apply NoDup_filter|]. split; [|apply NoDup_singleton].
    intros y Hy ->%list_elem_of_singleton. by apply not_in_filter_ne in Hy.
  - rewrite (toggle_favorite_absent x l Hout).
    rewrite toggle_favorite_present by (apply elem_of_app; right; by left).
    rewrite filter_app, filter_cons_False, filter_nil, app_nil_r by tauto.
    by rewrite filter_ne_absent.
Qed.

(** C7: for every stored favourites list and every [movieId], one call
    of the toggle appends [movieId], once, when it was absent, and removes
    it when it was present; either way the stored list then holds
    [movieId] at most once; and after a second call with the same
    [movieId] the stored list has the members it had at the start (and,
    when the list had no duplicates, is a rearrangement of it). *)
Theorem toggle_favourite_membership
    (c : Clerk) (uid movieId : string) (md : PrivateMetadata) :
  c !! uid = Some md →
  let req := {| auth_userId := Some uid; body_movieId := movieId |} in
  let before := stored_favorites c uid in
  let once := stored_favorites (updateFavourite req c).2 uid in
  let twice := stored_favorites (updateFavourite req (updateFavourite req c).2).2 uid in
  (movieId ∉ before → once = before ++ [movieId] ∧ occurrences movieId once = 1) ∧
  (movieId ∈ before → (movieId ∉ once) ∧ (∀ x, x ≠ movieId → x ∈ once ↔ x ∈ before)) ∧
  occurrences movieId once ≤ 1 ∧
  (∀ x, x ∈ twice ↔ x ∈ before) ∧
  (NoDup before → twice ≡ₚ before).
Proof.
  intros Hc. cbn zeta.
  rewrite (updateFavourite_found c uid movieId md Hc). cbn [snd].
  rewrite (updateFavourite_found _ uid movieId _ (lookup_insert_eq c uid _)). cbn [snd].
  rewrite !stored_favorites_insert. cbn [favorites].
  unfold stored_favorites. rewrite Hc.
  assert (toggle_favorite movieId (favorites md)
          = toggle_favorite movieId (Some (default [] (favorites md)))) as ->
    by by destruct (favorites md).
  change (match favorites md with Some l => l | None => [] end)
    with (default [] (favorites md)).
  generalize (default [] (favorites md)) as l. intros l.
  assert (movieId ∉ l → occurrences movieId (toggle_favorite movieId (Some l)) = 1) as Hadd.
  { intros Hout. rewrite toggle_favorite_absent by done.
    rewrite occurrences_app, occurrences_absent by done.
    unfold occurrences. by rewrite filter_cons_True. }
  assert (movieId ∈ l → movieId ∉ toggle_favorite movieId (Some l)) as Hdel.
  { intros Hin. rewrite toggle_favorite_present by done. apply not_in_filter_ne. }
  split; [|split; [|split; [|split]]].
  - intros Hout. split; [by apply toggle_favorite_absent | by apply Hadd].
  - intros Hin. split; [by apply Hdel|]. intros x Hx.
    rewrite toggle_favorite_present by done. rewrite list_elem_of_filter. tauto.
  - destruct (decide (movieId ∈ l)) as [Hin|Hout].
    + rewrite occurrences_absent; [lia | by apply Hdel].
    + by rewrite Hadd.
  - intros x. apply toggle_twice_elem.
  - apply toggle_twice_perm.
Qed.

Lemma toggle_favourite_membership_witness :
  let req := {| auth_userId := Some "u1"; body_movieId := "m2" |} in
  let before := stored_favorites sample_clerk "u1" in
  let once := stored_favorites (updateFavourite req sample_clerk).2 "u1" in
  let twice :=
    stored_favorites (updateFavourite req (updateFavourite req sample_clerk).2).2 "u1" in
  ("m2" ∉ before → once = before ++ ["m2"] ∧ occurrences "m2" once = 1) ∧
  ("m2" ∈ before → ("m2" ∉ once) ∧ (∀ x, x ≠ "m2" → x ∈ once ↔ x ∈ before)) ∧
  occurrences "m2" once ≤ 1 ∧
  (∀ x, x ∈ twice ↔ x ∈ before) ∧
  (NoDup before → twice ≡ₚ before).
Proof.
  apply (toggle_favourite_membership sample_clerk "u1" "m2"
           {| favorites := Some ["m1"; "m2"]; otherKeys := ∅ |}).
  reflexivity.
Defined.

(** C9: for every authenticated caller whose metadata has no [favorites]
    key, one call of the toggle with [movieId] answers [success: true]
    and stores exactly [[movieId]], the other keys of the metadata being
    kept. *)
Theorem first_toggle_initialises
    (c : Clerk) (uid movieId : string) (md : PrivateMetadata) :
  c !! uid = Some md → favorites md = None →
  let run := updateFavourite {| auth_userId := Some uid; body_movieId := movieId |} c in
  run.1 = Returned {| Response.success := true;
                      Response.message := "Favourite movies updated successfully" |} ∧
  run.2 = <[uid := {| favorites := Some [movieId]; otherKeys := otherKeys md |}]> c ∧
  stored_favorites run.2 uid = [movieId].
Proof.
  intros Hc Hnone. cbn zeta.
  rewrite (updateFavourite_found c uid movieId md Hc). cbn [fst snd].
  rewrite stored_favorites_insert, Hnone. by repeat split.
Qed.

Lemma first_toggle_initialises_witness :
  let run := updateFavourite {| auth_userId := Some "u2"; body_movieId := "m7" |} sample_clerk in
  run.1 = Returned {| Response.success := true;
                      Response.message := "Favourite movies updated successfully" |} ∧
  run.2 = <["u2" := {| favorites := Some ["m7"]; otherKeys := <["plan" := "free"]> ∅ |}]>
            sample_clerk ∧
  stored_favorites run.2 "u2" = ["m7"].
Proof.
  refine (first_toggle_initialises sample_clerk "u2" "m7"
            {| favorites := None; otherKeys := <["plan" := "free"]> ∅ |} _ _);
    reflexivity.
Defined.

(** ** The handlers on the sample data *)

(** The show of the sample world has four occupied seats held by three
    identities, one of which ("ghost") has no user record: the prepare
    step builds two tasks. *)
Example prepare_on_sample :
  (prepare_reminder_tasks 0 2000 sample_world).1 =
    Returned [ {| Task.userEmail := "ann@example.org"; Task.userName := "Ann Lee";
                  Task.movieTitle := "Dune"; Task.showTime := 1000 |};
               {| Task.userEmail := "bob@example.org"; Task.userName := "Bob Roy";
                  Task.movieTitle := "Dune"; Task.showTime := 1000 |} ].
Proof. vm_compute. reflexivity. Qed.

Example release_on_sample :
  occupiedSeats <$> shows (check_payment_status "b1" sample_world).2 !! "s1"
    = Some (<["B1" := "u2"]> (<["C7" := "ghost"]> ∅)).
Proof. vm_compute. reflexivity. Qed.

Example toggle_on_sample :
  toggle_favorite "m1" (Some ["m1"; "m2"; "m1"]) = ["m2"] ∧
  toggle_favorite "m3" (Some ["m1"; "m2"]) = ["m1"; "m2"; "m3"] ∧
  toggle_favorite "m3" None = ["m3"].
Proof. repeat split. Qed.

(** * Further properties of the handlers *)

(** ** User sync: creation, deletion, update *)

Lemma syncUserCreation_fresh (w : World) (d : ClerkUserData) (a : EmailAddress)
    (rest : list EmailAddress) :
  users w !! id d = None → email_addresses d = a :: rest →
  syncUserCreation d w =
    (Returned (), set_users (insert (id d) (projected d a)) (log_call (Create Users (id d)) w)).
Proof.
  intros Hfresh Hmail. unfold syncUserCreation, userData, User.create.
  rewrite Hmail. run_eff. cbn. by rewrite Hfresh.
Qed.

(** X1: a creation event for a new identity stores the record built from
    the event (first email address, first and last name joined by a
    space), and a deletion event for the same identity then brings every
    collection back to what it was. *)
Theorem create_then_delete_restores (w : World) (d : ClerkUserData) (a : EmailAddress)
    (rest : list EmailAddress) :
  users w !! id d = None → email_addresses d = a :: rest →
  let created := syncUserCreation d w in
  let deleted := syncUserDeletion d created.2 in
  created.1 = Returned () ∧
  users created.2 !! id d = Some (projected d a) ∧
  (∀ other, other ≠ id d → users created.2 !! other = users w !! other) ∧
  deleted.1 = Returned () ∧
  same_data deleted.2 w.
Proof.
  intros Hfresh Hmail. cbn zeta.
  rewrite (syncUserCreation_fresh w d a rest) by done. cbn [fst snd].
  split; [reflexivity|]. split; [cbn; apply lookup_insert_eq|].
  split; [intros other Hne; cbn; by rewrite lookup_insert_ne|].
  unfold syncUserDeletion, User.findByIdAndDelete. run_eff. cbn.
  split; [reflexivity|]. unfold same_data; cbn.
  by rewrite delete_insert_id.
Qed.

Lemma create_then_delete_restores_witness :
  let created := syncUserCreation update_with_email sample_world in
  let deleted := syncUserDeletion update_with_email created.2 in
  created.1 = Returned () ∧
  users created.2 !! "u9"
    = Some {| email := "cy@example.org"; name := "Cy null"; image := "c.png" |} ∧
  (∀ other, other ≠ "u9" → users created.2 !! other = users sample_world !! other) ∧
  deleted.1 = Returned () ∧
  same_data deleted.2 sample_world.
Proof.
  refine (create_then_delete_restores sample_world update_with_email
            {| email_address := "cy@example.org" |} [] _ _); reflexivity.
Defined.

(** X2: a creation event for an identity that already has a record fails
    (with a duplicate-key error when the event carries an email address)
    and leaves the existing record, and every other document, as it
    was. *)
Theorem create_existing_rejected (w : World) (d : ClerkUserData) (old : UserDoc) :
  users w !! id d = Some old →
  let run := syncUserCreation d w in
  returns run.1 = false ∧
  (email_addresses d ≠ [] → run.1 = Thrown (DuplicateKey (id d))) ∧
  users run.2 !! id d = Some old ∧
  same_data w run.2.
Proof.
  intros Hold. cbn zeta. unfold syncUserCreation, userData, User.create.
  destruct (email_addresses d) as [|a rest]; run_eff; cbn.
  - by repeat split.
  - rewrite Hold. cbn. by repeat split.
Qed.

Lemma create_existing_rejected_witness :
  let d := {| id := "u1"; first_name := Some "Ann"; last_name := Some "Lee";
              email_addresses := [{| email_address := "new@example.org" |}];
              image_url := "n.png" |} in
  let run := syncUserCreation d sample_world in
  run.1 = Thrown (DuplicateKey "u1") ∧
  users run.2 !! "u1"
    = Some {| email := "ann@example.org"; name := "Ann Lee"; image := "a.png" |} ∧
  same_data sample_world run.2.
Proof.
  cbn zeta.
  destruct (create_existing_rejected sample_world
              {| id := "u1"; first_name := Some "Ann"; last_name := Some "Lee";
                 email_addresses := [{| email_address := "new@example.org" |}];
                 image_url := "n.png" |}
              {| email := "ann@example.org"; name := "Ann Lee"; image := "a.png" |}
              eq_refl) as (_ & Hdup & Hkept & Hdata).
  split; [apply Hdup; discriminate|]. split; [exact Hkept | exact Hdata].
Defined.

(** X3: a deletion event always succeeds; it removes the record of its
    identity and no other, changes nothing when there is no such record,
    and applying it a second time changes nothing more. *)
Theorem delete_user_only (w : World) (d : ClerkUserData) :
  let run := syncUserDeletion d w in
  let again := syncUserDeletion d run.2 in
  run.1 = Returned () ∧
  users run.2 !! id d = None ∧
  (∀ other, other ≠ id d → users run.2 !! other = users w !! other) ∧
  shows run.2 = shows w ∧ bookings run.2 = bookings w ∧ movies run.2 = movies w ∧
  (users w !! id d = None → same_data w run.2) ∧
  again.1 = Returned () ∧ same_data again.2 run.2.
Proof.
  cbn zeta. unfold syncUserDeletion, User.findByIdAndDelete. run_eff. cbn.
  split; [reflexivity|]. split; [apply lookup_delete_eq|].
  split; [intros other Hne; by rewrite lookup_delete_ne|].
  do 3 (split; [reflexivity|]).
  split.
  { intros Habsent. unfold same_data; cbn. by rewrite delete_id. }
  split; [reflexivity|]. unfold same_data; cbn. by rewrite delete_delete_eq.
Qed.

(** X4: an update event never changes which identities have a record:
    whatever the event, the set of user ids, and every show, booking and
    movie, are the same after the handler as before. *)
Theorem update_keeps_ids (w : World) (d : ClerkUserData) :
  let run := syncUserUpdation d w in
  dom (users run.2) = dom (users w) ∧
  (∀ other, other ≠ id d → users run.2 !! other = users w !! other) ∧
  shows run.2 = shows w ∧ bookings run.2 = bookings w ∧ movies run.2 = movies w.
Proof.
  cbn zeta. unfold syncUserUpdation, userData, User.findByIdAndUpdate.
  destruct (email_addresses d) as [|a rest]; run_eff; cbn; [done|].
  destruct (users w !! id d) as [old|] eqn:Hold; cbn; [|done].
  split; [apply dom_insert_lookup_L; by rewrite Hold|].
  split; [|done]. intros other Hne. by rewrite lookup_insert_ne.
Qed.

(** X5: an update event for an identity that has a record replaces that
    record by the one built from the event, and applying the same event
    again changes nothing more. *)
Theorem update_existing_overwrites (w : World) (d : ClerkUserData) (old : UserDoc)
    (a : EmailAddress) (rest : list EmailAddress) :
  users w !! id d = Some old → email_addresses d = a :: rest →
  let run := syncUserUpdation d w in
  let again := syncUserUpdation d run.2 in
  run.1 = Returned () ∧
  users run.2 = <[id d := projected d a]> (users w) ∧
  calls_added w run.2 = [FindByIdAndUpdate Users (id d)] ∧
  again.1 = Returned () ∧ same_data again.2 run.2.
Proof.
  intros Hold Hmail. cbn zeta.
  unfold syncUserUpdation, userData, User.findByIdAndUpdate. rewrite Hmail.
  run_eff. cbn. rewrite Hold. cbn. rewrite lookup_insert_eq. cbn.
  split; [reflexivity|]. split; [reflexivity|].
  split; [by apply calls_added_app|]. split; [reflexivity|].
  unfold same_data; cbn. by rewrite insert_insert_eq.
Qed.

Lemma update_existing_overwrites_witness :
  let d := {| id := "u2"; first_name := Some "Robert"; last_name := Some "Roy";
              email_addresses := [{| email_address := "rob@example.org" |};
                                  {| email_address := "bob@example.org" |}];
              image_url := "r.png" |} in
  let run := syncUserUpdation d sample_world in
  let again := syncUserUpdation d run.2 in
  run.1 = Returned () ∧
  users run.2 = <["u2" := {| email := "rob@example.org"; name := "Robert Roy";
                             image := "r.png" |}]> (users sample_world) ∧
  calls_added sample_world run.2 = [FindByIdAndUpdate Users "u2"] ∧
  again.1 = Returned () ∧ same_data again.2 run.2.
Proof.
  refine (update_existing_overwrites sample_world _
            {| email := "bob@example.org"; name := "Bob Roy"; image := "b.png" |}
            {| email_address := "rob@example.org" |}
            [{| email_address := "bob@example.org" |}] _ _); reflexivity.
Defined.

(** ** Booking expiry: what the step leaves alone *)

Lemma release_seats_subseteq (seats : list string) (occ : gmap string string) :
  release_seats seats occ ⊆ occ.
Proof.
  apply map_subseteq_spec. intros k v. rewrite lookup_release_seats.
  by destruct (decide (k ∈ seats)).
Qed.

(** X6: when an unpaid booking refers to a show that is no longer there,
    the step throws a [TypeError] after reading the booking and looking
    for the show: on [show.occupiedSeats] when the booking has at least
    one seat, on [show.markModified] when it has none.  Nothing is
    written, and the booking is not deleted. *)
Theorem check_payment_show_gone (w : World) (bookingId : string) (b : BookingDoc) :
  bookings w !! bookingId = Some b → isPaid b = false →
  shows w !! show b = None →
  let run := check_payment_status bookingId w in
  run.1 = Thrown (TypeError
                    match bookedSeats b with
                    | _ :: _ => "Cannot read properties of null (reading 'occupiedSeats')"
                    | [] => "Cannot read properties of null (reading 'markModified')"
                    end) ∧
  bookings run.2 !! bookingId = Some b ∧
  same_data w run.2 ∧
  calls_added w run.2 = [FindById Bookings bookingId; FindById Shows (show b)].
Proof.
  intros Hb Hpaid Hs. cbn zeta.
  rewrite (check_payment_status_no_show w bookingId b) by done. cbn [fst snd].
  split; [by destruct (bookedSeats b)|]. split; [exact Hb|]. split; [by repeat split|].
  apply calls_added_app. cbn. by rewrite <- app_assoc.
Qed.

Lemma check_payment_show_gone_witness :
  let w := set_shows (delete "s1") sample_world in
  let run := check_payment_status "b1" w in
  let w0 := set_bookings (insert "b0" seatless_booking) w in
  let run0 := check_payment_status "b0" w0 in
  (run.1 = Thrown (TypeError "Cannot read properties of null (reading 'occupiedSeats')") ∧
   bookings run.2 !! "b1" = Some unpaid_booking ∧
   same_data w run.2 ∧
   calls_added w run.2 = [FindById Bookings "b1"; FindById Shows "s1"]) ∧
  (run0.1 = Thrown (TypeError "Cannot read properties of null (reading 'markModified')") ∧
   bookings run0.2 !! "b0" = Some seatless_booking ∧
   same_data w0 run0.2 ∧
   calls_added w0 run0.2 = [FindById Bookings "b0"; FindById Shows "s1"]).
Proof.
  split.
  - refine (check_payment_show_gone (set_shows (delete "s1") sample_world) "b1"
              unpaid_booking _ _ _); reflexivity.
  - refine (check_payment_show_gone
              (set_bookings (insert "b0" seatless_booking)
                 (set_shows (delete "s1") sample_world)) "b0"
              seatless_booking _ _ _); reflexivity.
Defined.

(** X7: whatever the state and the [bookingId], the step touches no
    user, no movie and no booking other than the one named; it neither
    adds nor removes a show, keeps the movie and start time of every
    show, and never adds an occupied seat: the occupied-seat mapping of
    every show after the step is contained in the one before. *)
Theorem check_payment_frame (w : World) (bookingId : string) :
  let w' := (check_payment_status bookingId w).2 in
  users w' = users w ∧ movies w' = movies w ∧
  (∀ other, other ≠ bookingId → bookings w' !! other = bookings w !! other) ∧
  dom (shows w') = dom (shows w) ∧
  (∀ sid s s', shows w !! sid = Some s → shows w' !! sid = Some s' →
               movie s' = movie s ∧ showTime s' = showTime s ∧
               occupiedSeats s' ⊆ occupiedSeats s).
Proof.
  cbn zeta.
  destruct (bookings w !! bookingId) as [b|] eqn:Hb.
  - destruct (isPaid b) eqn:Hpaid.
    + rewrite (check_payment_status_paid w _ b) by done. cbn.
      repeat split; try done; intros; simplify_eq; done.
    + destruct (shows w !! show b) as [s0|] eqn:Hs.
      * rewrite (check_payment_status_unpaid w _ b s0) by done. cbn.
        split; [done|]. split; [done|].
        split; [intros other Hne; by rewrite lookup_delete_ne|].
        split; [apply dom_insert_lookup_L; by rewrite Hs|].
        intros sid s s' Hsid Hsid'.
        destruct (decide (sid = show b)) as [->|Hne].
        -- rewrite lookup_insert_eq in Hsid'. simplify_eq. cbn.
           split; [done|]. split; [done|]. apply release_seats_subseteq.
        -- rewrite lookup_insert_ne in Hsid' by done. by simplify_eq.
      * rewrite (check_payment_status_no_show w _ b) by done. cbn.
        repeat split; try done; intros; simplify_eq; done.
  - rewrite check_payment_status_missing by done. cbn.
    repeat split; try done; intros; simplify_eq; done.
Qed.

(** ** Reminder sweep: who is reminded *)

Lemma prepare_reminder_tasks_eq (windowStart in8Hours : Z) (w : World) :
  ∃ calls,
    prepare_reminder_tasks windowStart in8Hours w
      = (Returned (flat_map (found_tasks (users w)) (shows_in_window windowStart in8Hours w)),
         add_calls calls w) ∧
    Forall (λ c, is_write c = false) calls.
Proof.
  unfold prepare_reminder_tasks, find_shows_in_window. run_eff.
  destruct (collect_tasks_spec (shows_in_window windowStart in8Hours w) []
              (log_call (Find Shows) w)) as (l & Heq & Hl).
  exists (Find Shows :: l). rewrite Heq. cbn [app users log_call].
  split; [|by constructor].
  f_equal. apply (add_calls_add_calls [Find Shows] l w).
Qed.

Lemma elem_of_shows_in_window (windowStart in8Hours : Z) (w : World) (ps : PopulatedShow) :
  ps ∈ shows_in_window windowStart in8Hours w ↔
  ∃ sid, shows w !! sid = Some ps.1 ∧
         (windowStart ≤ showTime ps.1 ≤ in8Hours)%Z ∧
         ps.2 = movies w !! movie ps.1.
Proof.
  unfold shows_in_window. rewrite list_elem_of_fmap. split.
  - intros ([sid s] & -> & Hin).
    apply elem_of_map_to_list, map_lookup_filter_Some in Hin as [Hs Hwin].
    cbn in *. exists sid. split; [done|]. split; [|done].
    unfold in_window in Hwin.
    apply andb_true_iff in Hwin as [H1 H2].
    apply bool_decide_eq_true in H1, H2. lia.
  - intros (sid & Hs & Hwin & Hmovie). exists (sid, ps.1). split.
    + destruct ps as [s om]. cbn in *. by rewrite Hmovie.
    + apply elem_of_map_to_list, map_lookup_filter_Some. split; [done|]. cbn.
      unfold in_window. apply andb_true_iff.
      split; apply bool_decide_eq_true; lia.
Qed.

(** X8: the prepare step builds a reminder for exactly the (show, user)
    pairs in which the show starts within the window and has its movie,
    and the user has a record and holds a seat of the show: every task
    comes from such a pair, and every such pair has its task. *)
Theorem reminder_task_iff (windowStart in8Hours : Z) (w : World) (t : Task.t) :
  ∃ tasks,
    (prepare_reminder_tasks windowStart in8Hours w).1 = Returned tasks ∧
    (t ∈ tasks ↔
       ∃ sid s m seat uid u,
         shows w !! sid = Some s ∧
         (windowStart ≤ showTime s ≤ in8Hours)%Z ∧
         movies w !! movie s = Some m ∧
         occupiedSeats s !! seat = Some uid ∧
         users w !! uid = Some u ∧
         t = {| Task.userEmail := email u; Task.userName := name u;
                Task.movieTitle := title m; Task.showTime := showTime s |}).
Proof.
  destruct (prepare_reminder_tasks_eq windowStart in8Hours w) as (calls & Heq & _).
  eexists. rewrite Heq. split; [reflexivity|].
  rewrite (flat_map_found_tasks_expected w). unfold expected_tasks.
  rewrite list_elem_of_In, in_flat_map. split.
  - intros ([s [m|]] & Hps%list_elem_of_In & Ht%list_elem_of_In); cbn in Ht;
      [|by apply elem_of_nil in Ht].
    apply list_elem_of_fmap in Ht as ([uid u] & -> & Hu).
    apply resolved_holders_spec in Hu as [[seat Hseat]%elem_of_seat_holders Hu].
    apply elem_of_shows_in_window in Hps as (sid & Hs & Hwin & Hm). cbn in *.
    symmetry in Hm. exists sid, s, m, seat, uid, u.
    split; [done|]. split; [done|]. by repeat split.
  - intros (sid & s & m & seat & uid & u & Hs & Hwin & Hm & Hseat & Hu & ->).
    exists (s, Some m). split.
    + apply list_elem_of_In, elem_of_shows_in_window. exists sid. cbn.
      split; [done|]. split; [done|]. by symmetry.
    + apply list_elem_of_In. cbn. apply list_elem_of_fmap. exists (uid, u).
      split; [done|]. apply resolved_holders_spec. split; [|done].
      apply elem_of_seat_holders. by exists seat.
Qed.

(** ** Reminder sweep: outcomes *)

Section Sweep.

Variable relay_accepts : nat → Email → bool.
Variable toLocaleString : Z → string.
Variable getFullYear : Z → string.

Local Abbreviation email_of := (reminder_email toLocaleString getFullYear).

Lemma all_accepted_log (base : nat) (emails : list Email) :
  (∀ k e, emails !! k = Some e → relay_accepts (base + k) e = true) →
  zip emails (relay_outcomes relay_accepts base emails) = (λ e, (e, Fulfilled)) <$> emails.
Proof.
  revert base. induction emails as [|e rest IH]; intros base Hall; [done|].
  cbn [relay_outcomes]. pose proof (Hall 0 e eq_refl) as Hhead.
  rewrite Nat.add_0_r in Hhead. rewrite Hhead. cbn. f_equal. apply IH.
  intros k e' Hk. rewrite <- (Hall (S k) e' Hk). f_equal. lia.
Qed.

(** X9: when there is at least one task and the relay takes every send,
    the sweep reports all of them sent and none failed, and each email
    is logged as fulfilled, in the order of the tasks. *)
Theorem reminders_all_sent (now : Z) (tasks : list Task.t) (w : World) :
  tasks ≠ [] →
  (∀ k e, (email_of now <$> tasks) !! k = Some e →
          relay_accepts (length (mailLog w) + k) e = true) →
  let run := remind relay_accepts toLocaleString getFullYear now tasks w in
  run.1 = Returned {| Summary.sent := length tasks; Summary.failed := Some 0;
                      Summary.message := "Sent " +:+ pretty (length tasks)
                                         +:+ " reminders, 0 failed." |} ∧
  mail_added w run.2 = (λ e, (e, Fulfilled)) <$> (email_of now <$> tasks).
Proof.
  intros Hne Hall. cbn zeta. destruct tasks as [|t rest]; [done|].
  rewrite remind_cons. cbn [fst snd].
  rewrite (all_accepted relay_accepts _ _ Hall), length_relay_outcomes, length_fmap.
  rewrite Nat.sub_diag. split; [reflexivity|].
  rewrite mail_added_add_mails. by apply all_accepted_log.
Qed.

(** X10: the sweep never throws and never writes: whatever the relay does
    with the sends, the handler returns a summary, every document is as
    before, and its calls on the database are reads. *)
Theorem sweep_reads_only (now : Z) (w : World) :
  let run := sendShowReminders relay_accepts toLocaleString getFullYear now w in
  returns run.1 = true ∧
  same_data w run.2 ∧
  Forall (λ c, is_write c = false) (calls_added w run.2).
Proof.
  cbn zeta. unfold sendShowReminders. run_eff.
  destruct (prepare_reminder_tasks_eq (now + 8 * 60 * 60 * 1000 - 10 * 60 * 1000)
              (now + 8 * 60 * 60 * 1000) w) as (calls & Heq & Hreads).
  rewrite Heq.
  destruct (flat_map _ _) as [|t rest].
  - rewrite remind_nil. cbn [fst snd].
    rewrite (calls_added_app w _ calls) by reflexivity. by repeat split.
  - rewrite remind_cons. cbn [fst snd].
    split; [reflexivity|]. split; [by repeat split|].
    rewrite (calls_added_app w _ calls); [done|reflexivity].
Qed.

End Sweep.

Lemma reminders_all_sent_witness :
  let run := remind relay_always sample_locale sample_year 0 sample_tasks sample_world in
  run.1 = Returned {| Summary.sent := 3; Summary.failed := Some 0;
                      Summary.message := "Sent 3 reminders, 0 failed." |} ∧
  mail_added sample_world run.2
    = (λ e, (e, Fulfilled)) <$> (reminder_email sample_locale sample_year 0 <$> sample_tasks).
Proof.
  refine (reminders_all_sent relay_always sample_locale sample_year 0 sample_tasks
            sample_world _ _).
  - discriminate.
  - intros k e _. reflexivity.
Defined.

(** ** New-show broadcast *)

Section Broadcast.

Variable relay_accepts : nat → Email → bool.
Variable getFullYear : Z → string.
Variable rejection : JsError.

Local Abbreviation notify := (notify_users relay_accepts getFullYear rejection).
Local Abbreviation mail_to := (new_show_email getFullYear).

(** The loop, when the relay takes every send. *)
Lemma notify_users_all (now : Z) (movieTitle movieId : string)
    (found : list (string * UserDoc)) (w : World) :
  (∀ k e, (mail_to now movieTitle movieId <$> (snd <$> found)) !! k = Some e →
          relay_accepts (length (mailLog w) + k) e = true) →
  notify now movieTitle movieId found w =
    (Returned (),
     add_mails ((λ e, (e, Fulfilled)) <$> (mail_to now movieTitle movieId <$> (snd <$> found))) w).
Proof.
  revert w. induction found as [|u rest IH]; intros w Hall.
  - cbn. destruct w. unfold add_mails; cbn. by rewrite app_nil_r.
  - cbn [notify_users]. unfold await_sendEmail, sendEmail. run_eff.
    pose proof (Hall 0 _ eq_refl) as Hhead. rewrite Nat.add_0_r in Hhead.
    rewrite Hhead. rewrite IH.
    + f_equal. apply (add_mails_add_mails [_] _ w).
    + intros k e Hk. cbn [mailLog log_mail]. rewrite length_app. cbn [length].
      rewrite <- (Hall (S k) e Hk). f_equal. lia.
Qed.

(** The loop, when the [j]-th send is the first the relay refuses. *)
Lemma notify_users_stops (now : Z) (movieTitle movieId : string)
    (found : list (string * UserDoc)) (w : World) (j : nat) (ej : Email) :
  let emails := mail_to now movieTitle movieId <$> (snd <$> found) in
  accepts_first relay_accepts (length (mailLog w)) j emails →
  emails !! j = Some ej →
  relay_accepts (length (mailLog w) + j) ej = false →
  notify now movieTitle movieId found w =
    (Thrown rejection,
     add_mails (((λ e, (e, Fulfilled)) <$> take j emails) ++ [(ej, Rejected)]) w).
Proof.
  cbn zeta. revert w j. induction found as [|u rest IH]; intros w j Hfirst Hj Hrefused;
    [done|].
  cbn [notify_users]. unfold await_sendEmail, sendEmail. run_eff.
  destruct j as [|j'].
  - cbn in Hj. injection Hj as <-. rewrite Nat.add_0_r in Hrefused.
    by rewrite Hrefused.
  - pose proof (Hfirst 0 _ (Nat.lt_0_succ j') eq_refl) as Hhead.
    rewrite Nat.add_0_r in Hhead. rewrite Hhead.
    rewrite (IH _ j').
    + f_equal. apply (add_mails_add_mails [_] _ w).
    + intros k e Hk Hlook. cbn [mailLog log_mail]. rewrite length_app. cbn [length].
      rewrite <- (Hfirst (S k) e); [f_equal; lia | lia | exact Hlook].
    + exact Hj.
    + cbn [mailLog log_mail]. rewrite length_app. cbn [length].
      rewrite <- Hrefused. f_equal. lia.
Qed.

(** X11: when the relay takes every send, the broadcast returns its
    message having sent one announcement to each user record, addressed
    to that user's email, and nothing else; no document changes and the
    only call on the database is the read of the users. *)
Theorem broadcast_reaches_everyone (now : Z) (movieTitle movieId : string) (w : World) :
  let emails := broadcast_emails getFullYear now movieTitle movieId w in
  (∀ k e, emails !! k = Some e → relay_accepts (length (mailLog w) + k) e = true) →
  let run := sendNewShowNotifications relay_accepts getFullYear rejection
               now movieTitle movieId w in
  run.1 = Returned {| Notification.message := "Notifications sent." |} ∧
  mail_added w run.2 = (λ e, (e, Fulfilled)) <$> emails ∧
  to <$> emails = (λ kv, email kv.2) <$> map_to_list (users w) ∧
  length (mail_added w run.2) = size (users w) ∧
  same_data w run.2 ∧
  calls_added w run.2 = [Find Users].
Proof.
  cbn zeta. intros Hall.
  unfold sendNewShowNotifications, find_all_users. run_eff.
  rewrite (notify_users_all now movieTitle movieId (map_to_list (users w))
             (log_call (Find Users) w)) by exact Hall.
  cbn [fst snd]. split; [reflexivity|]. split.
  { unfold mail_added; cbn. apply drop_app_length. }
  split.
  { unfold broadcast_emails. rewrite <- !list_fmap_compose. done. }
  split.
  { unfold mail_added; cbn. rewrite drop_app_length.
    unfold broadcast_emails. by rewrite !length_fmap, length_map_to_list. }
  split; [by repeat split|]. by apply calls_added_app.
Qed.

(** X12: when the [j]-th send is the first the relay refuses, the
    broadcast fails with the relay's reason after exactly [j + 1] sends:
    the users listed after that one are never written to.  No document
    changes. *)
Theorem broadcast_stops_at_first_failure
    (now : Z) (movieTitle movieId : string) (w : World) (j : nat) (ej : Email) :
  let emails := broadcast_emails getFullYear now movieTitle movieId w in
  accepts_first relay_accepts (length (mailLog w)) j emails →
  emails !! j = Some ej →
  relay_accepts (length (mailLog w) + j) ej = false →
  let run := sendNewShowNotifications relay_accepts getFullYear rejection
               now movieTitle movieId w in
  run.1 = Thrown rejection ∧
  (mail_added w run.2).*1 = take (S j) emails ∧
  length (mail_added w run.2) = S j ∧
  same_data w run.2.
Proof.
  cbn zeta. intros Hfirst Hj Hrefused.
  unfold sendNewShowNotifications, find_all_users. run_eff.
  rewrite (notify_users_stops now movieTitle movieId (map_to_list (users w))
             (log_call (Find Users) w) j ej Hfirst Hj Hrefused).
  cbn [fst snd]. split; [reflexivity|].
  assert (j < length (broadcast_emails getFullYear now movieTitle movieId w)) as Hlen
    by (apply lookup_lt_is_Some; by rewrite Hj).
  unfold mail_added; cbn [mailLog add_mails log_call]. rewrite drop_app_length.
  split.
  { rewrite fmap_app, <- list_fmap_compose. cbn.
    rewrite (take_S_r _ j ej) by exact Hj. f_equal.
    apply list_fmap_id. }
  split; [|by repeat split].
  rewrite length_app, !length_fmap, length_take. cbn.
  unfold broadcast_emails in Hlen. lia.
Qed.

End Broadcast.

Lemma broadcast_reaches_everyone_witness :
  let emails := broadcast_emails sample_year 0 "Dune" "m1" sample_world in
  let run := sendNewShowNotifications relay_always sample_year sample_rejection
               0 "Dune" "m1" sample_world in
  run.1 = Returned {| Notification.message := "Notifications sent." |} ∧
  mail_added sample_world run.2 = (λ e, (e, Fulfilled)) <$> emails ∧
  to <$> emails = (λ kv, email kv.2) <$> map_to_list (users sample_world) ∧
  length (mail_added sample_world run.2) = size (users sample_world) ∧
  same_data sample_world run.2 ∧
  calls_added sample_world run.2 = [Find Users].
Proof.
  refine (broadcast_reaches_everyone relay_always sample_year sample_rejection
            0 "Dune" "m1" sample_world _).
  intros k e _. reflexivity.
Defined.

Lemma broadcast_stops_at_first_failure_witness :
  let emails := broadcast_emails sample_year 0 "Dune" "m1" sample_world in
  let run := sendNewShowNotifications (relay_refusing 0) sample_year sample_rejection
               0 "Dune" "m1" sample_world in
  length emails = 2 ∧
  run.1 = Thrown sample_rejection ∧
  (mail_added sample_world run.2).*1 = take 1 emails ∧
  length (mail_added sample_world run.2) = 1 ∧
  same_data sample_world run.2.
Proof.
  split; [vm_compute; reflexivity|].
  destruct (broadcast_emails sample_year 0 "Dune" "m1" sample_world !! 0)
    as [e0|] eqn:He0; [|vm_compute in He0; discriminate].
  refine (broadcast_stops_at_first_failure (relay_refusing 0) sample_year
            sample_rejection 0 "Dune" "m1" sample_world 0 e0 _ He0 _).
  - intros k e Hk. lia.
  - reflexivity.
Defined.

(** ** Booking confirmation *)

Section Confirmation.

Variable relay_accepts : nat → Email → bool.
Variable getFullYear : Z → string.
Variable rejection : JsError.
Variable showDateTime_text : ShowDoc → string.

Local Abbreviation confirm :=
  (sendBookingConfirmationEmail relay_accepts getFullYear rejection showDateTime_text).
Local Abbreviation confirmation :=
  (confirmation_email getFullYear showDateTime_text).

(** X13: when the booking, its user, its show and the show's movie are
    all there, the handler makes exactly one send, addressed to the
    user's email with the movie title in the subject; it returns when
    the relay takes the email and fails with the relay's reason when it
    does not.  It reads the booking and writes nothing. *)
Theorem confirmation_sends_one (now : Z) (w : World) (bookingId : string)
    (b : BookingDoc) (u : UserDoc) (s : ShowDoc) (m : MovieDoc) :
  bookings w !! bookingId = Some b → users w !! user b = Some u →
  shows w !! show b = Some s → movies w !! movie s = Some m →
  let e := confirmation now b u s m in
  let accepted := relay_accepts (length (mailLog w)) e in
  let run := confirm now bookingId w in
  run.1 = (if accepted then Returned () else Thrown rejection) ∧
  mail_added w run.2 = [(e, if accepted then Fulfilled else Rejected)] ∧
  to e = email u ∧
  subject e = "Payment Confirmation: " +:+ dq +:+ title m +:+ dq +:+ " booked!" ∧
  same_data w run.2 ∧
  calls_added w run.2 = [FindById Bookings bookingId].
Proof.
  intros Hb Hu Hs Hm. cbn zeta.
  unfold sendBookingConfirmationEmail, find_booking_populated, populate_booking,
    await_sendEmail, sendEmail.
  run_eff. rewrite Hb. cbn. rewrite Hu, Hs. cbn. rewrite Hm.
  destruct (relay_accepts _ _); cbn;
    (split; [reflexivity|]; split; [unfold mail_added; cbn; apply drop_app_length|];
     split; [reflexivity|]; split; [reflexivity|]; split; [by repeat split|];
     by apply calls_added_app).
Qed.

(** X14: when the booking is missing, or its user, or its show, or the
    show's movie, the handler throws a [TypeError] before anything is
    handed to the relay: no email is sent and nothing is written. *)
Theorem confirmation_needs_all (now : Z) (w : World) (bookingId : string) :
  bookings w !! bookingId = None ∨
  (∃ b, bookings w !! bookingId = Some b ∧
        (users w !! user b = None ∨ shows w !! show b = None ∨
         ∃ s, shows w !! show b = Some s ∧ movies w !! movie s = None)) →
  let run := confirm now bookingId w in
  (∃ what, run.1 = Thrown (TypeError what)) ∧
  mail_added w run.2 = [] ∧
  same_data w run.2 ∧
  calls_added w run.2 = [FindById Bookings bookingId].
Proof.
  intros Hmissing. cbn zeta.
  unfold sendBookingConfirmationEmail, find_booking_populated, populate_booking.
  run_eff.
  assert (∀ w0 : World, mail_added w0 (log_call (FindById Bookings bookingId) w0) = [])
    as Hnomail by (intros w0; unfold mail_added; cbn; apply drop_all).
  destruct Hmissing as [Hb|(b & Hb & Hrest)]; rewrite Hb; cbn.
  { split; [by eexists|]. split; [apply Hnomail|]. split; [by repeat split|].
    by apply calls_added_app. }
  destruct (users w !! user b) as [u|] eqn:Hu; cbn.
  2:{ split; [by eexists|]. split; [apply Hnomail|]. split; [by repeat split|].
      by apply calls_added_app. }
  destruct Hrest as [Hnone|[Hs|(s & Hs & Hm)]]; [done| |].
  - rewrite Hs. cbn.
    split; [by eexists|]. split; [apply Hnomail|]. split; [by repeat split|].
    by apply calls_added_app.
  - rewrite Hs. cbn. rewrite Hm.
    split; [by eexists|]. split; [apply Hnomail|]. split; [by repeat split|].
    by apply calls_added_app.
Qed.

End Confirmation.

Lemma confirmation_sends_one_witness :
  let e := confirmation_email sample_year sample_showDateTime 0 paid_booking
             {| email := "bob@example.org"; name := "Bob Roy"; image := "b.png" |}
             sample_show {| title := "Dune" |} in
  let run := sendBookingConfirmationEmail relay_always sample_year sample_rejection
               sample_showDateTime 0 "b2" sample_world in
  run.1 = Returned () ∧
  mail_added sample_world run.2 = [(e, Fulfilled)] ∧
  to e = "bob@example.org" ∧
  subject e = "Payment Confirmation: " +:+ dq +:+ "Dune" +:+ dq +:+ " booked!" ∧
  same_data sample_world run.2 ∧
  calls_added sample_world run.2 = [FindById Bookings "b2"].
Proof.
  refine (confirmation_sends_one relay_always sample_year sample_rejection
            sample_showDateTime 0 sample_world "b2" paid_booking
            {| email := "bob@example.org"; name := "Bob Roy"; image := "b.png" |}
            sample_show {| title := "Dune" |} _ _ _ _); reflexivity.
Defined.

Lemma confirmation_needs_all_witness :
  let w := set_users (delete "u2") sample_world in
  let run := sendBookingConfirmationEmail relay_always sample_year sample_rejection
               sample_showDateTime 0 "b2" w in
  (∃ what, run.1 = Thrown (TypeError what)) ∧
  mail_added w run.2 = [] ∧
  same_data w run.2 ∧
  calls_added w run.2 = [FindById Bookings "b2"].
Proof.
  refine (confirmation_needs_all relay_always sample_year sample_rejection
            sample_showDateTime 0 (set_users (delete "u2") sample_world) "b2" _).
  right. exists paid_booking. split; [reflexivity|]. left. reflexivity.
Defined.

(** ** Favourites controller: failures and what is left alone *)

(** X15: the toggle never throws: for every request and every state of
    the identity provider it answers with an envelope, [success: true]
    exactly when the caller is authenticated and known there; when it
    answers [success: false], nothing was stored. *)
Theorem updateFavourite_always_answers (req : Request) (c : Clerk) :
  ∃ resp,
    (updateFavourite req c).1 = Returned resp ∧
    (Response.success resp = true ↔
       ∃ uid, auth_userId req = Some uid ∧ is_Some (c !! uid)) ∧
    (Response.success resp = false → (updateFavourite req c).2 = c).
Proof.
  unfold updateFavourite, clerkClient.getUser, clerkClient.updateUserMetadata. run_eff.
  destruct (auth_userId req) as [uid|]; cbn.
  - destruct (c !! uid) as [md|] eqn:Hc; cbn.
    + rewrite Hc. cbn. eexists. split; [reflexivity|]. cbn. split; [|done].
      split; [|done]. intros _. exists uid. by rewrite Hc.
    + eexists. split; [reflexivity|]. cbn. split; [|done].
      split; [done|]. intros (uid' & [= <-] & Hsome). rewrite Hc in Hsome.
      by destruct Hsome.
  - eexists. split; [reflexivity|]. cbn. split; [|done].
    split; [done|]. by intros (uid' & Heq & _).
Qed.

(** X16: a toggle changes the caller's [favorites] key and nothing else:
    the other keys of the caller's metadata, the metadata of every other
    user and the set of users are as before. *)
Theorem updateFavourite_frame (c : Clerk) (uid movieId : string) (md : PrivateMetadata) :
  c !! uid = Some md →
  let c' := (updateFavourite {| auth_userId := Some uid; body_movieId := movieId |} c).2 in
  (∃ md', c' !! uid = Some md' ∧ otherKeys md' = otherKeys md) ∧
  (∀ other, other ≠ uid → c' !! other = c !! other) ∧
  dom c' = dom c.
Proof.
  intros Hc. cbn zeta. rewrite (updateFavourite_found c uid movieId md Hc). cbn [snd].
  split; [eexists; split; [apply lookup_insert_eq | reflexivity]|].
  split; [intros other Hne; by rewrite lookup_insert_ne|].
  apply dom_insert_lookup_L. by rewrite Hc.
Qed.

Lemma updateFavourite_frame_witness :
  let c' := (updateFavourite {| auth_userId := Some "u2"; body_movieId := "m7" |}
               sample_clerk).2 in
  (∃ md', c' !! "u2" = Some md' ∧ otherKeys md' = <["plan" := "free"]> ∅) ∧
  (∀ other, other ≠ "u2" → c' !! other = sample_clerk !! other) ∧
  dom c' = dom sample_clerk.
Proof.
  refine (updateFavourite_frame sample_clerk "u2" "m7"
            {| favorites := None; otherKeys := <["plan" := "free"]> ∅ |} _).
  reflexivity.
Defined.

Lemma filter_ne_toggle (x : string) (l : list string) :
  filter (λ item, item ≠ x) (toggle_favorite x (Some l)) = filter (λ item, item ≠ x) l.
Proof.
  destruct (decide (x ∈ l)) as [Hin|Hout].
  - rewrite toggle_favorite_present by done.
    apply list_filter_filter_l. tauto.
  - rewrite toggle_favorite_absent by done.
    rewrite filter_app, filter_cons_False, filter_nil, app_nil_r by tauto. done.
Qed.

Lemma NoDup_toggle (x : string) (l : list string) :
  NoDup l → NoDup (toggle_favorite x (Some l)).
Proof.
  intros Hnodup. destruct (decide (x ∈ l)) as [Hin|Hout].
  - rewrite toggle_favorite_present by done. by apply NoDup_filter.
  - rewrite toggle_favorite_absent by done. apply NoDup_app.
    split; [done|]. split; [|apply NoDup_singleton].
    intros y Hy ->%list_elem_of_singleton. done.
Qed.

(** X17: a toggle of [movieId] leaves the caller's other favourites
    alone: the stored list without [movieId] is the same, in the same
    order, before and after; and a stored list without duplicates stays
    without duplicates. *)
Theorem toggle_keeps_other_favourites
    (c : Clerk) (uid movieId : string) (md : PrivateMetadata) :
  c !! uid = Some md →
  let before := stored_favorites c uid in
  let after :=
    stored_favorites
      (updateFavourite {| auth_userId := Some uid; body_movieId := movieId |} c).2 uid in
  filter (λ item, item ≠ movieId) after = filter (λ item, item ≠ movieId) before ∧
  (NoDup before → NoDup after).
Proof.
  intros Hc. cbn zeta. rewrite (updateFavourite_found c uid movieId md Hc). cbn [snd].
  rewrite stored_favorites_insert. unfold stored_favorites. rewrite Hc.
  assert (toggle_favorite movieId (favorites md)
          = toggle_favorite movieId (Some (default [] (favorites md)))) as ->
    by by destruct (favorites md).
  change (match favorites md with Some l => l | None => [] end)
    with (default [] (favorites md)).
  split; [apply filter_ne_toggle | apply NoDup_toggle].
Qed.

Lemma toggle_keeps_other_favourites_witness :
  let before := stored_favorites sample_clerk "u1" in
  let after :=
    stored_favorites
      (updateFavourite {| auth_userId := Some "u1"; body_movieId := "m1" |} sample_clerk).2
      "u1" in
  filter (λ item, item ≠ "m1") after = filter (λ item, item ≠ "m1") before ∧
  (NoDup before → NoDup after).
Proof.
  refine (toggle_keeps_other_favourites sample_clerk "u1" "m1"
            {| favorites := Some ["m1"; "m2"]; otherKeys := ∅ |} _).
  reflexivity.
Defined.

(** ** Reading the favourites *)

Section ReadFavourites.

Variable find_in_undefined : Outcome (list (string * MovieDoc)).

(** X18: for a known caller with a favourites list, the answer is
    [success: true] with exactly the movies whose id is in the list, each
    once: an id in the list without a movie record is left out, without
    any error. *)
Theorem getFavourites_matches (c : Clerk) (w : World) (uid : string)
    (md : PrivateMetadata) (ids : list string) :
  c !! uid = Some md → favorites md = Some ids →
  ∃ found,
    (getFavourites find_in_undefined (Some uid) (c, w)).1 = Returned (FavouritesFound found) ∧
    NoDup found.*1 ∧
    (∀ mid m, (mid, m) ∈ found ↔ mid ∈ ids ∧ movies w !! mid = Some m) ∧
    (∀ mid, mid ∈ ids → movies w !! mid = None → mid ∉ found.*1).
Proof.
  intros Hc Hids.
  unfold getFavourites, on_clerk, on_db, clerkClient.getUser, find_movies_in. run_eff.
  cbn. rewrite Hc. cbn. rewrite Hids. cbn.
  eexists. split; [reflexivity|].
  assert (∀ mid m, (mid, m) ∈ map_to_list (filter (λ kv, kv.1 ∈ ids) (movies w))
                   ↔ mid ∈ ids ∧ movies w !! mid = Some m) as Hspec.
  { intros mid m. rewrite elem_of_map_to_list, map_lookup_filter_Some. cbn. tauto. }
  split; [apply NoDup_fst_map_to_list|]. split; [exact Hspec|].
  intros mid Hin Hnone ([mid' m] & Heq & Hfound)%list_elem_of_fmap. cbn in Heq. subst mid'.
  apply Hspec in Hfound as [_ Hsome]. congruence.
Qed.

(** X19: reading the favourites never throws and never changes
    anything, at the identity provider or in the database; for a caller
    who is not authenticated or not known, the answer is [success: false]
    and the database is not consulted. *)
Theorem getFavourites_reads_only (userId : option string) (c : Clerk) (w : World) :
  let run := getFavourites find_in_undefined userId (c, w) in
  returns run.1 = true ∧
  run.2.1 = c ∧ same_data w run.2.2 ∧
  Forall (λ call, is_write call = false) (calls_added w run.2.2) ∧
  ((∀ uid, userId = Some uid → c !! uid = None) →
     (∃ message, run.1 = Returned (FavouritesFailed message)) ∧ run.2.2 = w).
Proof.
  cbn zeta.
  unfold getFavourites, on_clerk, on_db, clerkClient.getUser, find_movies_in. run_eff.
  cbn.
  assert (calls_added w w = []) as Hnone by (unfold calls_added; apply drop_all).
  destruct userId as [uid|]; cbn.
  - destruct (c !! uid) as [md|] eqn:Hc; cbn.
    + assert (calls_added w (log_call (Find Movies) w) = [Find Movies]) as Hcalls
        by by apply calls_added_app.
      destruct (favorites md) as [ids|]; [|destruct find_in_undefined]; cbn;
        rewrite Hcalls;
        (split; [reflexivity|]; split; [reflexivity|]; split; [by repeat split|];
         split; [by repeat constructor|]; intros Hunknown;
         specialize (Hunknown uid eq_refl); congruence).
    + rewrite Hnone. split; [reflexivity|]. split; [reflexivity|].
      split; [by repeat split|]. split; [constructor|].
      intros _. split; [by eexists | reflexivity].
  - rewrite Hnone. split; [reflexivity|]. split; [reflexivity|].
    split; [by repeat split|]. split; [constructor|].
    intros _. split; [by eexists | reflexivity].
Qed.

End ReadFavourites.

Lemma getFavourites_matches_witness :
  ∃ found,
    (getFavourites (Returned []) (Some "u1") (sample_clerk, sample_world)).1
      = Returned (FavouritesFound found) ∧
    NoDup found.*1 ∧
    (∀ mid m, (mid, m) ∈ found ↔ mid ∈ ["m1"; "m2"] ∧ movies sample_world !! mid = Some m) ∧
    (∀ mid, mid ∈ ["m1"; "m2"] → movies sample_world !! mid = None → mid ∉ found.*1).
Proof.
  refine (getFavourites_matches (Returned []) sample_clerk sample_world "u1"
            {| favorites := Some ["m1"; "m2"]; otherKeys := ∅ |} ["m1"; "m2"] _ _);
    reflexivity.
Defined.

(** The sample caller has two favourites, one of which has no movie
    record: one movie comes back. *)
Example getFavourites_on_sample :
  (getFavourites (Returned []) (Some "u1") (sample_clerk, sample_world)).1
    = Returned (FavouritesFound [("m1", {| title := "Dune" |})]).
Proof. vm_compute. reflexivity. Qed.
